(** * ValueVault: the best buy/sell time scan of [C/bot.c]

    A shallow embedding of [findBestBuySellTimes] and the properties of the
    specification that concern it.

    - C [float] is IEEE-754 binary32.  It is modelled by the Standard
      Library's [spec_float] with [prec = 24] and [emax = 128]; [-] is
      [SFsub] (round to nearest, ties to even) and [<], [>] are [SFltb].
      Every expression of the function is evaluated in binary32 (no excess
      precision).
    - C [int] indices are modelled by [Z].  The only integer arithmetic of
      the function is [i++] under the guard [i < n], so no index ever
      exceeds [n] and nothing wraps around.
    - The caller's objects (the array and the two [int] cells behind the
      pointers [buyTime] and [sellTime]) form the [memory]; the automatic
      variables of the function form its [frame].  A read outside the array
      is undefined behaviour and is modelled by [None]. *)

From Stdlib Require Import ZArith List Bool Lia.
From Stdlib Require Import Floats.SpecFloat.
Import ListNotations.

Local Open Scope Z_scope.

(** ** binary32 *)

Module F32.

Definition prec : Z := 24.
Definition emax : Z := 128.

(** The exponent of the smallest subnormal, [-149]. *)
Definition emin : Z := Eval cbv in SpecFloat.emin prec emax.

Definition float : Type := spec_float.

(** [x - y] *)
Definition sub (x y : float) : float := SFsub prec emax x y.

(** [x < y] *)
Definition ltb (x y : float) : bool := SFltb x y.

(** [x <= y] *)
Definition leb (x y : float) : bool := SFleb x y.

(** [x == y] *)
Definition eqb (x y : float) : bool := SFeqb x y.

(** The constant [0] converted to [float]. *)
Definition zero : float := S754_zero false.

(** An integer constant converted to [float]. *)
Definition of_Z (z : Z) : float := binary_normalize prec emax z 0 false.

(** The decimal constant of value [m * 2 ^ e] converted to [float]. *)
Definition dyadic (m e : Z) : float := binary_normalize prec emax m e false.

(** The values a [float] object can hold: the mantissa is canonical and
    the exponent is in range. *)
Definition valid (x : float) : bool := valid_binary prec emax x.

(** Neither an infinity nor a NaN. *)
Definition is_finite (x : float) : bool :=
  match x with
  | S754_zero _ | S754_finite _ _ _ => true
  | S754_infinity _ | S754_nan => false
  end.

Definition is_nan (x : float) : bool :=
  match x with
  | S754_nan => true
  | _ => false
  end.

(** A price the specification admits: a binary32 number, infinities and
    NaN excluded. *)
Definition price (x : float) : bool := valid x && is_finite x.

(** A binary32 value that takes part in the order: anything but NaN. *)
Definition num (x : float) : bool := valid x && negb (is_nan x).

End F32.

Import F32.

(** ** Memory and the error monad *)

(** The objects of the caller that the function can reach. *)
Record memory : Type := mkMemory {
  prices   : list float;   (* the array [prices[]] *)
  buyTime  : Z;            (* the object [*buyTime] *)
  sellTime : Z             (* the object [*sellTime] *)
}.

(** The automatic variables that live across loop iterations. *)
Record frame : Type := mkFrame {
  minPrice  : float;
  minTime   : Z;
  maxProfit : float
}.

Definition bind {A B : Type} (c : option A) (k : A -> option B) : option B :=
  match c with
  | Some a => k a
  | None => None
  end.

Notation "x <- c ;; k" := (bind c (fun x => k))
  (at level 61, c at next level, right associativity).

(** [prices[i]]: defined only inside the array. *)
Definition load (m : memory) (i : Z) : option float :=
  if i <? 0 then None else nth_error (prices m) (Z.to_nat i).

(** ** The function *)

(** One iteration of the loop body, lines 23-32. *)
Definition body (i : Z) (st : memory * frame) : option (memory * frame) :=
  let (m, f) := st in
  p <- load m i ;;
  let f1 :=
    if ltb p (minPrice f)
    then mkFrame p i (maxProfit f)
    else f in
  let profit := sub p (minPrice f1) in
  if ltb (maxProfit f1) profit
  then Some (mkMemory (prices m) (minTime f1) i,
             mkFrame (minPrice f1) (minTime f1) profit)
  else Some (m, f1).

(** [for (; i < n; i++) body], given the number [k] of iterations left. *)
Fixpoint for_loop (k : nat) (i : Z) (st : memory * frame)
  : option (memory * frame) :=
  match k with
  | O => Some st
  | S k' => st' <- body i st ;; for_loop k' (i + 1) st'
  end.

(** [findBestBuySellTimes(prices, n, buyTime, sellTime)].  The loop starts at
    [i = 1] and runs while [i < n], that is [n - 1] times, and not at all
    when [n <= 1].  The result is the memory at return together with the
    frame the function had when it returned; the frame is lost to the
    caller, who sees the two cells only. *)
Definition findBestBuySellTimes (n : Z) (m : memory)
  : option (memory * frame) :=
  p0 <- load m 0 ;;
  for_loop (Z.to_nat (n - 1)) 1
           (mkMemory (prices m) 0 0, mkFrame p0 0 zero).

(** The specification's [findBestTrade(prices)]: the function called on an
    array holding exactly the sequence, with [n] its length.  The cells
    behind the two pointers are uninitialised in [main]; [b0] and [s0] are
    the values they happen to hold. *)
Definition findBestTrade (ps : list float) (b0 s0 : Z)
  : option (memory * frame) :=
  findBestBuySellTimes (Z.of_nat (length ps)) (mkMemory ps b0 s0).

(** The test [buyTime < sellTime] by which [main], line 81, decides between
    printing the trade and printing that none was found. *)
Definition trade_found (m : memory) : bool := buyTime m <? sellTime m.

(** [prices[i]] of a sequence, for stating properties. *)
Definition at_ (ps : list float) (i : Z) : float :=
  nth (Z.to_nat i) ps S754_nan.

(** The length of the sequence, as the [int] the caller passes. *)
Definition len (ps : list float) : Z := Z.of_nat (length ps).

(** ** Sample sequences *)

(** The scenarios of the specification. *)
Definition prices_rally : list float := map of_Z [7; 1; 5; 3; 6; 4].
Definition prices_zigzag : list float := map of_Z [1; 2; 1; 2; 1; 2].
Definition prices_falling : list float := map of_Z [7; 6; 4; 3; 1].

(** Quotes as [graph.txt] holds them: 101.25, 99.5, 103.3125, 101.375. *)
Definition prices_quotes : list float :=
  [dyadic 405 (-2); dyadic 199 (-1); dyadic 1653 (-4); dyadic 811 (-3)].

(** ** Definitions for the theory of binary32 rounding

    [SFsub] rounds the exact difference with [binary_normalize].  Its result
    is described here on integers: every binary32 number is an integer
    multiple of [2 ^ emin], and rounding is a function [rnd] on these
    integers. *)

Definition b2z (b : bool) : Z := if b then 1 else 0.

Definition rne_shift (m k : Z) : Z :=
  let q := m / 2 ^ k in
  let r2 := 2 * (m mod 2 ^ k) in
  if r2 <? 2 ^ k then q
  else if 2 ^ k <? r2 then q + 1
  else if Z.even q then q else q + 1.

(** What [j >= 1] right shifts of [m0] leave in the record. *)
Definition shr_inv (m0 j : Z) (r : shr_record) : Prop :=
  exists t, 0 <= t < 2 ^ (j - 1) /\
            m0 = shr_m r * 2 ^ j + b2z (shr_r r) * 2 ^ (j - 1) + t /\
            (shr_s r = true <-> 0 < t) /\ 0 <= shr_m r.

(** The float of sign [s] and magnitude [n * 2 ^ (emin + k)], [n <= 2 ^ prec]. *)
Definition finish (s : bool) (n k : Z) : spec_float :=
  let '(n', k') := if n =? 2 ^ prec then (2 ^ (prec - 1), k + 1) else (n, k) in
  if emin + k' <=? emax - prec
  then S754_finite s (Z.to_pos n') (emin + k')
  else S754_infinity s.

(** The exponent, in units of [2 ^ emin], at which [N] is rounded. *)
Definition rexp (N : Z) : Z := Z.max (Zdigits2 N - prec) 0.

(** Rounding of the positive magnitude [N * 2 ^ emin]. *)
Definition round_pos (s : bool) (N : Z) : spec_float :=
  finish s (rne_shift N (rexp N)) (rexp N).

Definition huge : Z := 2 ^ (emax - emin).

Definition toZ (x : spec_float) : Z :=
  match x with
  | S754_zero _ => 0
  | S754_finite s m e => cond_Zopp s (Zpos m * 2 ^ (e - emin))
  | S754_infinity s => cond_Zopp s huge
  | S754_nan => 0
  end.

(** The magnitude [N > 0], rounded to nearest even and saturated. *)
Definition rnd_mag (N : Z) : Z :=
  Z.min (rne_shift N (rexp N) * 2 ^ rexp N) huge.

Definition rnd (N : Z) : Z :=
  match N with
  | Z0 => 0
  | Zpos _ => rnd_mag N
  | Zneg p => - rnd_mag (Zpos p)
  end.

(** ** Invariants of the scan *)

(** What holds of every float sequence when the loop is about to test
    [i < n]: indices [0 .. i-1] have been scanned. *)
Definition inv_struct (ps : list float) (i : Z) (st : memory * frame) : Prop :=
  prices (fst st) = ps /\
  0 <= minTime (snd st) < i /\
  minPrice (snd st) = at_ ps (minTime (snd st)) /\
  0 <= buyTime (fst st) <= sellTime (fst st) /\ sellTime (fst st) < i /\
  ((buyTime (fst st) = 0 /\ sellTime (fst st) = 0 /\ maxProfit (snd st) = zero) \/
   (buyTime (fst st) < sellTime (fst st) /\
    ltb zero (maxProfit (snd st)) = true /\
    maxProfit (snd st)
    = sub (at_ ps (sellTime (fst st))) (at_ ps (buyTime (fst st))))).

(** No later price exceeds an earlier one. *)
Definition never_rises (ps : list float) : Prop :=
  forall i j, 0 <= i < j -> j < len ps -> ltb (at_ ps i) (at_ ps j) = false.

(** On a sequence that never rises nothing is ever recorded. *)
Definition inv_flat (st : memory * frame) : Prop :=
  buyTime (fst st) = 0 /\ sellTime (fst st) = 0 /\ maxProfit (snd st) = zero.

(** What the scan knows, on prices, about the order of the values it has
    seen: [minPrice] is the least price of [0 .. i-1] and [minTime] its
    first occurrence; [maxProfit] bounds every difference inside
    [0 .. i-1]; a recorded buy time is the first occurrence of the least
    price up to the recorded sell time. *)
Definition inv_order (ps : list float) (i : Z) (st : memory * frame) : Prop :=
  (forall j, 0 <= j < i -> toZ (minPrice (snd st)) <= toZ (at_ ps j)) /\
  (forall j, 0 <= j < minTime (snd st) ->
             toZ (minPrice (snd st)) < toZ (at_ ps j)) /\
  num (maxProfit (snd st)) = true /\
  (forall b s, 0 <= b <= s -> s < i ->
               toZ (sub (at_ ps s) (at_ ps b)) <= toZ (maxProfit (snd st))) /\
  (buyTime (fst st) < sellTime (fst st) ->
   (forall j, 0 <= j <= sellTime (fst st) ->
              toZ (at_ ps (buyTime (fst st))) <= toZ (at_ ps j)) /\
   (forall j, 0 <= j < buyTime (fst st) ->
              toZ (at_ ps (buyTime (fst st))) < toZ (at_ ps j))).

Definition inv_full (ps : list float) (i : Z) (st : memory * frame) : Prop :=
  inv_struct ps i st /\ inv_order ps i st.

(** ** The rest of the scan's contract *)

Definition len_rows (price : list (list float)) : Z := Z.of_nat (length price).

(** The result of a call as the caller sees it on another array: the cells
    and the frame, whatever the array. *)
Definition on_array (a : list float) (st : memory * frame) : memory * frame :=
  (mkMemory a (buyTime (fst st)) (sellTime (fst st)), snd st).

(** Every sale that ends before the recorded sell time earns strictly less
    than the recorded profit. *)
Definition inv_first_sale (ps : list float) (st : memory * frame) : Prop :=
  forall b s, 0 <= b <= s -> s < sellTime (fst st) ->
              toZ (sub (at_ ps s) (at_ ps b)) < toZ (maxProfit (snd st)).

(** ** The caller: [main] *)

(** The bounds of [struct bot]. *)
Definition TOTAL : Z := 12.
Definition HOUR : Z := 16.

(** [x * y] *)
Definition mul (x y : float) : float := SFmul prec emax x y.

(** [x / y] *)
Definition div (x y : float) : float := SFdiv prec emax x y.

(** [((x - y) / y) * 100], the expression of lines 59 and 84.  The operands
    are [float]; the constant [100] is converted to [float]. *)
Definition pct (x y : float) : float := mul (div (sub x y) y) (of_Z 100).

(** [allstocks.exch[i][k]] as lines 56-60 set it, from the prices
    [allstocks.price[i]] of the row. *)
Definition exch (row : list float) (k : Z) : float :=
  if k =? 0 then zero else pct (at_ row k) (at_ row (k - 1)).

(** What lines 81-87 print: the arguments of the three [printf] of a found
    trade (the two times, which index [date], the two prices and the gain in
    per cent), or the message that none was found. *)
Inductive report : Type :=
| Trade (buy sell : Z) (buyPrice sellPrice gain : float)
| NoTrade.

(** [allstocks.price[slct-1]]: defined for a row of the table only. *)
Definition select (price : list (list float)) (slct : Z) : option (list float) :=
  if slct - 1 <? 0 then None else nth_error price (Z.to_nat (slct - 1)).

(** Lines 78-87 of [main], on the table of prices read from the file and the
    number [slct] read from the user. *)
Definition analyse (price : list (list float)) (slct b0 s0 : Z) : option report :=
  row <- select price slct ;;
  r <- findBestBuySellTimes HOUR (mkMemory row b0 s0) ;;
  if trade_found (fst r)
  then pb <- load (fst r) (buyTime (fst r)) ;;
       psell <- load (fst r) (sellTime (fst r)) ;;
       Some (Trade (buyTime (fst r)) (sellTime (fst r)) pb psell (pct psell pb))
  else Some NoTrade.

(** A table as [struct bot] holds it: [TOTAL] rows of [HOUR] prices. *)
Definition table_ok (price : list (list float)) : Prop :=
  len_rows price = TOTAL /\
  forall row, In row price -> len row = HOUR /\ forallb F32.price row = true.

(** The sign of a float that has one. *)
Definition has_sign (s : bool) (x : float) : bool :=
  match x with
  | S754_zero s' | S754_infinity s' | S754_finite s' _ _ => Bool.eqb s' s
  | S754_nan => false
  end.

Definition is_zero (x : float) : bool :=
  match x with
  | S754_zero _ => true
  | _ => false
  end.

(** A sample table: row [r] holds the prices [100 + ((r + 3) * k mod 7) / 4]
    for [k = 0 .. 15]. *)
Definition sample_row (r : Z) : list float :=
  map (fun k => dyadic (400 + ((r + 3) * Z.of_nat k) mod 7) (-2)) (seq 0 16).

Definition sample_table : list (list float) :=
  map (fun r => sample_row (Z.of_nat r)) (seq 0 12).

(** ** Tactics *)

(** Settles a goal [(a ?= b) = c] whose answer follows by linear arithmetic. *)
Ltac compare_by_lia :=
  first [ apply Z.compare_eq_iff; lia
        | apply Z.compare_lt_iff; lia
        | apply Z.compare_gt_iff; lia ].

(** ** Theory of binary32 rounding *)

Lemma digits2_pos_bounds (p : positive) :
  2 ^ (Zpos (digits2_pos p) - 1) <= Zpos p < 2 ^ Zpos (digits2_pos p).
Proof.
  induction p as [p IH | p IH |]; cbn [digits2_pos].
  - rewrite Pos2Z.inj_succ.
    replace (Z.succ (Zpos (digits2_pos p)) - 1) with (Z.succ (Zpos (digits2_pos p) - 1)) by lia.
    rewrite !Z.pow_succ_r by lia. lia.
  - rewrite Pos2Z.inj_succ.
    replace (Z.succ (Zpos (digits2_pos p)) - 1) with (Z.succ (Zpos (digits2_pos p) - 1)) by lia.
    rewrite !Z.pow_succ_r by lia. lia.
  - cbn. lia.
Qed.

Lemma iter_pos_nat {A : Type} (f : A -> A) (p : positive) (x : A) :
  iter_pos f p x = Nat.iter (Pos.to_nat p) f x.
Proof.
  revert x; induction p as [p IH | p IH |]; intros x; cbn [iter_pos].
  - rewrite !IH, Pos2Nat.inj_xI.
    replace (S (2 * Pos.to_nat p)) with (Pos.to_nat p + (Pos.to_nat p + 1))%nat by lia.
    rewrite !Nat.iter_add. reflexivity.
  - rewrite !IH, Pos2Nat.inj_xO.
    replace (2 * Pos.to_nat p)%nat with (Pos.to_nat p + Pos.to_nat p)%nat by lia.
    rewrite Nat.iter_add. reflexivity.
  - reflexivity.
Qed.

Lemma shr_1_nonneg (m : Z) (r s : bool) :
  0 <= m ->
  shr_1 (Build_shr_record m r s) = Build_shr_record (m / 2) (Z.odd m) (r || s).
Proof.
  intros Hm. destruct m as [| p | p]; try lia.
  - reflexivity.
  - destruct p as [p | p |]; cbn [shr_1]; f_equal.
    + rewrite Pos2Z.inj_xI. apply Z.div_unique with 1; lia.
    + rewrite Pos2Z.inj_xO. apply Z.div_unique with 0; lia.
Qed.

Lemma shr_inv_first (m0 : Z) :
  0 <= m0 -> shr_inv m0 1 (shr_1 (Build_shr_record m0 false false)).
Proof.
  intros Hm. rewrite shr_1_nonneg by assumption. exists 0. cbn [shr_m shr_r shr_s orb].
  change (2 ^ (1 - 1)) with 1. change (2 ^ 1) with 2.
  pose proof (Z.div_mod m0 2 ltac:(lia)) as E.
  pose proof (Z.mod_pos_bound m0 2 ltac:(lia)).
  rewrite Zmod_odd in E. unfold b2z.
  destruct (Z.odd m0); repeat split; try lia; try (apply Z.div_pos; lia).
Qed.

Lemma shr_inv_step (m0 j : Z) (r : shr_record) :
  1 <= j -> shr_inv m0 j r -> shr_inv m0 (j + 1) (shr_1 r).
Proof.
  intros Hj (t & Ht & E & Hs & Hm). destruct r as [m r s]. cbn [shr_m shr_r shr_s] in *.
  rewrite shr_1_nonneg by assumption.
  exists (b2z r * 2 ^ (j - 1) + t). cbn [shr_m shr_r shr_s].
  replace (j + 1 - 1) with (Z.succ (j - 1)) by lia.
  replace (j + 1) with (Z.succ (Z.succ (j - 1))) by lia.
  replace j with (Z.succ (j - 1)) in E at 1 by lia.
  rewrite !Z.pow_succ_r by lia. rewrite Z.pow_succ_r in E by lia.
  pose proof (Z.div_mod m 2 ltac:(lia)) as D.
  rewrite Zmod_odd in D.
  assert (0 < 2 ^ (j - 1)) as HP by (apply Z.pow_pos_nonneg; lia).
  assert (0 <= m / 2) as Hq by (apply Z.div_pos; lia).
  set (P := 2 ^ (j - 1)) in *. set (q := m / 2) in *.
  assert (m = 2 * q + b2z (Z.odd m)) as D' by (unfold b2z; destruct (Z.odd m); lia).
  clear D.
  split; [| split; [| split]].
  - unfold b2z; destruct r; lia.
  - rewrite E. rewrite D' at 1. ring.
  - destruct Hs as [Hs1 Hs2].
    destruct r, s; cbn [orb b2z]; split; intros K; try reflexivity; try lia;
      try discriminate; try (specialize (Hs1 eq_refl); lia); apply Hs2; lia.
  - assumption.
Qed.

Lemma shr_inv_iter (m0 : Z) (n : nat) :
  0 <= m0 ->
  shr_inv m0 (Z.of_nat (S n)) (Nat.iter (S n) shr_1 (Build_shr_record m0 false false)).
Proof.
  intros Hm. induction n as [| n IH].
  - apply shr_inv_first; assumption.
  - rewrite Nat.iter_succ. replace (Z.of_nat (S (S n))) with (Z.of_nat (S n) + 1) by lia.
    apply shr_inv_step; [lia | exact IH].
Qed.

Lemma shr_inv_iter_pos (m0 : Z) (p : positive) :
  0 <= m0 ->
  shr_inv m0 (Zpos p) (iter_pos shr_1 p (Build_shr_record m0 false false)).
Proof.
  intros Hm. rewrite iter_pos_nat.
  destruct (Pos2Nat.is_succ p) as [n Hn]. rewrite Hn.
  replace (Zpos p) with (Z.of_nat (S n)) by lia.
  apply shr_inv_iter; assumption.
Qed.

Lemma shr_inv_div_mod (m0 j : Z) (r : shr_record) :
  1 <= j -> shr_inv m0 j r ->
  shr_m r = m0 / 2 ^ j /\
  exists t, 0 <= t < 2 ^ (j - 1) /\ (shr_s r = true <-> 0 < t) /\
            m0 mod 2 ^ j = b2z (shr_r r) * 2 ^ (j - 1) + t.
Proof.
  intros Hj (t & Ht & E & Hs & Hm).
  assert (2 ^ j = 2 * 2 ^ (j - 1)) as Hpow.
  { replace j with (Z.succ (j - 1)) at 1 by lia. apply Z.pow_succ_r; lia. }
  assert (0 <= b2z (shr_r r) * 2 ^ (j - 1) + t < 2 ^ j) as Hrem.
  { unfold b2z; destruct (shr_r r); lia. }
  assert (m0 = 2 ^ j * shr_m r + (b2z (shr_r r) * 2 ^ (j - 1) + t)) as E' by lia.
  split.
  - apply Z.div_unique with (b2z (shr_r r) * 2 ^ (j - 1) + t); [left |]; assumption.
  - exists t. repeat split; try lia; try apply Hs.
    symmetry. apply Z.mod_unique with (shr_m r); [left |]; assumption.
Qed.

Lemma rne_of_shr_inv (m0 j : Z) (r : shr_record) :
  1 <= j -> shr_inv m0 j r ->
  round_nearest_even (shr_m r) (loc_of_shr_record r) = rne_shift m0 j.
Proof.
  intros Hj H. destruct (shr_inv_div_mod m0 j r Hj H) as (Hq & t & Ht & Hs & Hmod).
  unfold rne_shift. rewrite <- Hq, Hmod.
  assert (2 ^ j = 2 * 2 ^ (j - 1)) as Hpow.
  { replace j with (Z.succ (j - 1)) at 1 by lia. apply Z.pow_succ_r; lia. }
  rewrite Hpow. set (P := 2 ^ (j - 1)) in *.
  destruct r as [m rb sb]. cbn [shr_m shr_r shr_s loc_of_shr_record] in *.
  destruct Hs as [Hs1 Hs2].
  destruct rb, sb; cbn [b2z round_nearest_even].
  - specialize (Hs1 eq_refl).
    destruct (Z.ltb_spec (2 * (1 * P + t)) (2 * P)); [lia |].
    destruct (Z.ltb_spec (2 * P) (2 * (1 * P + t))); [reflexivity | lia].
  - assert (t = 0) by (destruct (Z.eq_dec t 0); [assumption | assert (0 < t) as Q by lia; specialize (Hs2 Q); discriminate]).
    subst t.
    destruct (Z.ltb_spec (2 * (1 * P + 0)) (2 * P)); [lia |].
    destruct (Z.ltb_spec (2 * P) (2 * (1 * P + 0))); [lia | reflexivity].
  - specialize (Hs1 eq_refl).
    destruct (Z.ltb_spec (2 * (0 * P + t)) (2 * P)); [reflexivity | lia].
  - destruct (Z.ltb_spec (2 * (0 * P + t)) (2 * P)); [reflexivity | lia].
Qed.

(** *** Arithmetic of rounding to nearest even *)

Lemma rne_shift_0 (m : Z) : rne_shift m 0 = m.
Proof.
  unfold rne_shift. change (2 ^ 0) with 1. rewrite Z.mod_1_r, Z.div_1_r. reflexivity.
Qed.

Lemma rne_shift_exact (c k : Z) : 0 <= k -> rne_shift (c * 2 ^ k) k = c.
Proof.
  intros Hk. assert (0 < 2 ^ k) by (apply Z.pow_pos_nonneg; lia).
  unfold rne_shift. rewrite Z.mod_mul, Z.div_mul by lia.
  destruct (Z.ltb_spec (2 * 0) (2 ^ k)); [reflexivity | lia].
Qed.

Lemma rne_shift_cases (m k : Z) :
  0 <= k ->
  exists q r, m = q * 2 ^ k + r /\ 0 <= r < 2 ^ k /\
    ((2 * r < 2 ^ k /\ rne_shift m k = q) \/
     (2 ^ k < 2 * r /\ rne_shift m k = q + 1) \/
     (2 * r = 2 ^ k /\ Z.even q = true /\ rne_shift m k = q) \/
     (2 * r = 2 ^ k /\ Z.even q = false /\ rne_shift m k = q + 1)).
Proof.
  intros Hk. assert (0 < 2 ^ k) as HP by (apply Z.pow_pos_nonneg; lia).
  exists (m / 2 ^ k), (m mod 2 ^ k).
  pose proof (Z.div_mod m (2 ^ k) ltac:(lia)) as D.
  pose proof (Z.mod_pos_bound m (2 ^ k) HP) as B.
  split; [lia |]. split; [assumption |].
  unfold rne_shift.
  destruct (Z.ltb_spec (2 * (m mod 2 ^ k)) (2 ^ k)); [left; split; [assumption | reflexivity] |].
  destruct (Z.ltb_spec (2 ^ k) (2 * (m mod 2 ^ k))); [right; left; split; [assumption | reflexivity] |].
  destruct (Z.even (m / 2 ^ k)) eqn:Ev.
  - right; right; left. repeat split; try lia.
  - right; right; right. repeat split; try lia.
Qed.

Lemma rne_shift_mono (m1 m2 k : Z) :
  0 <= k -> m1 <= m2 -> rne_shift m1 k <= rne_shift m2 k.
Proof.
  intros Hk Hle. assert (0 < 2 ^ k) as HP by (apply Z.pow_pos_nonneg; lia).
  destruct (rne_shift_cases m1 k Hk) as (q1 & r1 & E1 & B1 & C1).
  destruct (rne_shift_cases m2 k Hk) as (q2 & r2 & E2 & B2 & C2).
  set (P := 2 ^ k) in *.
  assert (q1 <= q2) as Hq by nia.
  assert (q1 < q2 \/ (q1 = q2 /\ r1 <= r2)) as [Hlt | [Heq Hr]] by nia.
  - destruct C1 as [[? ->] | [[? ->] | [(? & ? & ->) | (? & ? & ->)]]];
    destruct C2 as [[? ->] | [[? ->] | [(? & ? & ->) | (? & ? & ->)]]]; lia.
  - subst q2.
    destruct C1 as [[? ->] | [[? ->] | [(? & ? & ->) | (? & ? & ->)]]];
    destruct C2 as [[? ->] | [[? ->] | [(? & ? & ->) | (? & ? & ->)]]];
      try lia; congruence.
Qed.

Lemma rne_shift_scale (a k j : Z) :
  0 <= k -> 0 <= j -> rne_shift (a * 2 ^ j) (k + j) = rne_shift a k.
Proof.
  intros Hk Hj.
  assert (0 < 2 ^ k) as HPk by (apply Z.pow_pos_nonneg; lia).
  assert (0 < 2 ^ j) as HPj by (apply Z.pow_pos_nonneg; lia).
  unfold rne_shift. rewrite Z.pow_add_r by lia.
  rewrite Z.div_mul_cancel_r by lia.
  rewrite Z.mul_mod_distr_r by lia.
  pose proof (Z.mod_pos_bound a (2 ^ k) HPk) as B.
  set (r := a mod 2 ^ k) in *. set (P := 2 ^ k) in *. set (Q := 2 ^ j) in *.
  destruct (Z.ltb_spec (2 * (r * Q)) (P * Q)), (Z.ltb_spec (2 * r) P); try nia; try reflexivity.
  destruct (Z.ltb_spec (P * Q) (2 * (r * Q))), (Z.ltb_spec P (2 * r)); try nia; reflexivity.
Qed.

Lemma rne_shift_bounds (m k : Z) :
  0 <= k -> m / 2 ^ k <= rne_shift m k <= m / 2 ^ k + 1.
Proof.
  intros Hk. unfold rne_shift.
  destruct (_ <? _); [lia |]. destruct (_ <? _); [lia |]. destruct (Z.even _); lia.
Qed.

(** *** Digits *)

Lemma Zdigits2_bounds (n : Z) :
  0 < n -> 2 ^ (Zdigits2 n - 1) <= n < 2 ^ Zdigits2 n.
Proof.
  intros Hn. destruct n as [| p | p]; try lia. apply digits2_pos_bounds.
Qed.

Lemma Zdigits2_pos (n : Z) : 0 < n -> 0 < Zdigits2 n.
Proof. intros Hn. destruct n; cbn; lia. Qed.

Lemma Zdigits2_unique (n x : Z) :
  0 < n -> 2 ^ (x - 1) <= n < 2 ^ x -> Zdigits2 n = x.
Proof.
  intros Hn Hx. pose proof (Zdigits2_bounds n Hn) as Hd.
  pose proof (Zdigits2_pos n Hn) as Hp.
  assert (0 < x).
  { destruct (Z_lt_le_dec 0 x) as [|Hneg]; [assumption |].
    assert (2 ^ x <= 1); [| lia].
    destruct (Z.eq_dec x 0) as [-> |]; [cbn; lia |].
    rewrite Z.pow_neg_r by lia. lia. }
  destruct (Z.lt_trichotomy (Zdigits2 n) x) as [Hlt | [Heq | Hgt]]; [| assumption |].
  - assert (2 ^ Zdigits2 n <= 2 ^ (x - 1)) by (apply Z.pow_le_mono_r; lia). lia.
  - assert (2 ^ x <= 2 ^ (Zdigits2 n - 1)) by (apply Z.pow_le_mono_r; lia). lia.
Qed.

Lemma Zdigits2_mul_pow2 (n j : Z) :
  0 < n -> 0 <= j -> Zdigits2 (n * 2 ^ j) = Zdigits2 n + j.
Proof.
  intros Hn Hj. pose proof (Zdigits2_bounds n Hn) as Hd.
  pose proof (Zdigits2_pos n Hn) as Hp.
  assert (0 < 2 ^ j) as HPj by (apply Z.pow_pos_nonneg; lia).
  apply Zdigits2_unique; [nia |].
  replace (Zdigits2 n + j - 1) with ((Zdigits2 n - 1) + j) by lia.
  rewrite !Z.pow_add_r by lia. nia.
Qed.

Lemma Zdigits2_mono (a b : Z) : 0 < a -> a <= b -> Zdigits2 a <= Zdigits2 b.
Proof.
  intros Ha Hab.
  pose proof (Zdigits2_bounds a Ha) as Hda. pose proof (Zdigits2_bounds b ltac:(lia)) as Hdb.
  destruct (Z_le_gt_dec (Zdigits2 a) (Zdigits2 b)) as [| Hgt]; [assumption |].
  assert (2 ^ Zdigits2 b <= 2 ^ (Zdigits2 a - 1)); [| lia].
  apply Z.pow_le_mono_r; lia.
Qed.

Lemma pos_iter_xO (p n : positive) :
  Zpos (Pos.iter xO p n) = Zpos p * 2 ^ Zpos n.
Proof.
  rewrite (Pos.iter_swap_gen _ _ Zpos xO (Z.mul 2)) by reflexivity.
  change (Pos.iter (Z.mul 2) (Zpos p) n) with (Z.shiftl (Zpos p) (Zpos n)).
  apply Z.shiftl_mul_pow2. lia.
Qed.

Lemma shl_align_spec (p : positive) (e E : Z) :
  Zpos (fst (shl_align p e E)) = Zpos p * 2 ^ (e - Z.min e E) /\
  snd (shl_align p e E) = Z.min e E.
Proof.
  unfold shl_align. destruct (E - e) as [| d | d] eqn:Hd; cbn [fst snd].
  - replace (Z.min e E) with e by lia. rewrite Z.sub_diag. cbn. lia.
  - replace (Z.min e E) with e by lia. rewrite Z.sub_diag. cbn. lia.
  - replace (Z.min e E) with E by lia. rewrite pos_iter_xO.
    replace (e - E) with (Zpos d) by lia. lia.
Qed.

Lemma shr_nonpos (r : shr_record) (e z : Z) : z <= 0 -> shr r e z = (r, e).
Proof. intros Hz. destruct z; try reflexivity. lia. Qed.

Lemma shr_pos (r : shr_record) (e z : Z) :
  0 < z -> shr r e z = (iter_pos shr_1 (Z.to_pos z) r, e + z).
Proof. intros Hz. destruct z; try lia. reflexivity. Qed.

Lemma fexp_eq (x : Z) : fexp prec emax x = Z.max (x - prec) emin.
Proof. reflexivity. Qed.

Lemma rexp_nonneg (N : Z) : 0 <= rexp N.
Proof. unfold rexp. lia. Qed.

Lemma rne_rexp_bounds (N : Z) :
  0 < N ->
  1 <= rne_shift N (rexp N) <= 2 ^ prec /\
  (0 < rexp N -> 2 ^ (prec - 1) <= rne_shift N (rexp N)).
Proof.
  intros HN. pose proof (Zdigits2_bounds N HN) as Hd.
  unfold rexp. destruct (Z.max_spec (Zdigits2 N - prec) 0) as [[Hlt ->] | [Hle ->]].
  - rewrite rne_shift_0. split; [| lia]. split; [lia |].
    assert (2 ^ Zdigits2 N <= 2 ^ prec) by (apply Z.pow_le_mono_r; lia). lia.
  - set (k := Zdigits2 N - prec) in *.
    assert (0 < 2 ^ k) as HP by (apply Z.pow_pos_nonneg; lia).
    pose proof (rne_shift_bounds N k ltac:(lia)) as Hb.
    assert (2 ^ (Zdigits2 N - 1) = 2 ^ (prec - 1) * 2 ^ k) as E1.
    { rewrite <- Z.pow_add_r by (unfold prec; lia). f_equal. unfold k. lia. }
    assert (2 ^ Zdigits2 N = 2 ^ prec * 2 ^ k) as E2.
    { rewrite <- Z.pow_add_r by (unfold prec; lia). f_equal. unfold k. lia. }
    assert (2 ^ (prec - 1) <= N / 2 ^ k) by (apply Z.div_le_lower_bound; lia).
    assert (N / 2 ^ k < 2 ^ prec) by (apply Z.div_lt_upper_bound; lia).
    assert (0 < 2 ^ (prec - 1)) by (cbv; reflexivity).
    lia.
Qed.

Lemma shr_fexp_first (mz ez : Z) :
  0 < mz -> ez <= fexp prec emax (Zdigits2 mz + ez) ->
  exists r, shr_fexp prec emax mz ez loc_Exact = (r, fexp prec emax (Zdigits2 mz + ez)) /\
            round_nearest_even (shr_m r) (loc_of_shr_record r)
            = rne_shift mz (fexp prec emax (Zdigits2 mz + ez) - ez).
Proof.
  intros Hm He. unfold shr_fexp. set (E := fexp prec emax (Zdigits2 mz + ez)) in *.
  cbn [shr_record_of_loc].
  destruct (Z.eq_dec (E - ez) 0) as [Hz | Hnz].
  - rewrite shr_nonpos by lia. eexists; split.
    + f_equal. lia.
    + rewrite Hz, rne_shift_0. reflexivity.
  - rewrite shr_pos by lia. eexists; split.
    + f_equal. lia.
    + apply rne_of_shr_inv; [lia |].
      replace (E - ez) with (Zpos (Z.to_pos (E - ez))) at 1 by lia.
      apply shr_inv_iter_pos. lia.
Qed.

Lemma shr_fexp_second (n E : Z) :
  emin <= E -> 1 <= n <= 2 ^ prec ->
  shr_fexp prec emax n E loc_Exact =
  if n =? 2 ^ prec
  then (Build_shr_record (2 ^ (prec - 1)) false false, E + 1)
  else (Build_shr_record n false false, E).
Proof.
  intros HE Hn. unfold shr_fexp. cbn [shr_record_of_loc].
  destruct (Z.eqb_spec n (2 ^ prec)) as [-> | Hne].
  - change (Zdigits2 (2 ^ prec)) with 25. rewrite fexp_eq.
    replace (Z.max (25 + E - prec) emin - E) with 1 by (unfold prec, emin in *; lia).
    reflexivity.
  - apply shr_nonpos. rewrite fexp_eq.
    pose proof (Zdigits2_bounds n ltac:(lia)) as Hd.
    assert (Zdigits2 n <= prec); [| lia].
    destruct (Z_le_gt_dec (Zdigits2 n) prec) as [| Hgt]; [assumption |].
    assert (2 ^ prec <= 2 ^ (Zdigits2 n - 1)) by (apply Z.pow_le_mono_r; unfold prec in *; lia).
    lia.
Qed.

Lemma binary_round_aux_eq (s : bool) (mz ez : Z) :
  0 < mz -> emin <= ez -> ez <= fexp prec emax (Zdigits2 mz + ez) ->
  binary_round_aux prec emax s mz ez loc_Exact = round_pos s (mz * 2 ^ (ez - emin)).
Proof.
  intros Hm Hez He.
  assert (0 < 2 ^ (ez - emin)) as HP by (apply Z.pow_pos_nonneg; lia).
  assert (0 < mz * 2 ^ (ez - emin)) as HN by nia.
  set (E := fexp prec emax (Zdigits2 mz + ez)) in *.
  assert (rexp (mz * 2 ^ (ez - emin)) = E - emin) as Hk.
  { unfold rexp. rewrite Zdigits2_mul_pow2 by lia. unfold E. rewrite fexp_eq. lia. }
  assert (rne_shift (mz * 2 ^ (ez - emin)) (E - emin) = rne_shift mz (E - ez)) as Hr.
  { replace (E - emin) with ((E - ez) + (ez - emin)) by lia.
    apply rne_shift_scale; lia. }
  destruct (rne_rexp_bounds _ HN) as [Hb _]. rewrite Hk, Hr in Hb.
  unfold round_pos. rewrite Hk, Hr.
  unfold binary_round_aux.
  destruct (shr_fexp_first mz ez Hm He) as (r & -> & ->). fold E.
  rewrite shr_fexp_second by (assumption || lia).
  unfold finish.
  destruct (Z.eqb_spec (rne_shift mz (E - ez)) (2 ^ prec)) as [_ | _]; cbn [shr_m].
  - replace (emin + (E - emin + 1)) with (E + 1) by lia. reflexivity.
  - replace (emin + (E - emin)) with E by lia.
    destruct (rne_shift mz (E - ez)) as [| q | q] eqn:Hq; try lia. reflexivity.
Qed.

Lemma binary_round_eq (s : bool) (p : positive) (e : Z) :
  emin <= e ->
  binary_round prec emax s p e = round_pos s (Zpos p * 2 ^ (e - emin)).
Proof.
  intros He. unfold binary_round.
  set (E := fexp prec emax (Zpos (digits2_pos p) + e)).
  destruct (shl_align_spec p e E) as [Hm Hz].
  destruct (shl_align p e E) as [mz ez]. cbn [fst snd] in Hm, Hz.
  assert (emin <= E) by (unfold E; rewrite fexp_eq; lia).
  assert (0 <= e - ez) by lia.
  assert (Zdigits2 (Zpos mz) + ez = Zpos (digits2_pos p) + e) as Hd.
  { rewrite Hm, Hz, Zdigits2_mul_pow2 by lia. cbn [Zdigits2]. lia. }
  rewrite binary_round_aux_eq; [| lia | lia | rewrite Hd; fold E; lia].
  f_equal. rewrite Hm, <- Z.mul_assoc, <- Z.pow_add_r by lia. do 2 f_equal. lia.
Qed.

(** *** The value of a float, in units of [2 ^ emin] *)

Lemma bounded_inv (m : positive) (e : Z) :
  bounded prec emax m e = true ->
  emin <= e <= emax - prec /\
  e - emin = rexp (Zpos m * 2 ^ (e - emin)) /\
  Zpos (digits2_pos m) <= prec /\
  (emin < e -> Zpos (digits2_pos m) = prec).
Proof.
  unfold bounded, canonical_mantissa. rewrite andb_true_iff, Z.eqb_eq, Z.leb_le, fexp_eq.
  intros [Hc He]. assert (emin <= e) by lia.
  unfold rexp. rewrite Zdigits2_mul_pow2 by lia. cbn [Zdigits2]. lia.
Qed.

Lemma mag_bounds (m : positive) (e : Z) :
  bounded prec emax m e = true ->
  2 ^ (e - emin) <= Zpos m * 2 ^ (e - emin) < 2 ^ (prec + (e - emin)) /\
  (emin < e -> 2 ^ (prec - 1 + (e - emin)) <= Zpos m * 2 ^ (e - emin)).
Proof.
  intros Hb. destruct (bounded_inv m e Hb) as (He & _ & Hd & Hn).
  pose proof (digits2_pos_bounds m) as Hm.
  assert (0 < 2 ^ (e - emin)) as HP by (apply Z.pow_pos_nonneg; lia).
  assert (2 ^ Zpos (digits2_pos m) <= 2 ^ prec) by (apply Z.pow_le_mono_r; lia).
  rewrite !Z.pow_add_r by (unfold prec; lia).
  split; [nia |]. intros Hlt. rewrite <- (Hn Hlt). nia.
Qed.

Lemma mag_lt_huge (m : positive) (e : Z) :
  bounded prec emax m e = true -> 0 < Zpos m * 2 ^ (e - emin) < huge.
Proof.
  intros Hb. destruct (bounded_inv m e Hb) as (He & _).
  destruct (mag_bounds m e Hb) as [Hm _].
  assert (0 < 2 ^ (e - emin)) as HP by (apply Z.pow_pos_nonneg; lia).
  assert (2 ^ (prec + (e - emin)) <= huge).
  { unfold huge. apply Z.pow_le_mono_r; unfold prec, emax, emin in *; lia. }
  lia.
Qed.

Lemma mag_lt_exp (m1 m2 : positive) (e1 e2 : Z) :
  bounded prec emax m1 e1 = true -> bounded prec emax m2 e2 = true ->
  e1 < e2 -> Zpos m1 * 2 ^ (e1 - emin) < Zpos m2 * 2 ^ (e2 - emin).
Proof.
  intros H1 H2 Hlt.
  destruct (bounded_inv m1 e1 H1) as (He1 & _).
  destruct (mag_bounds m1 e1 H1) as [Hm1 _].
  destruct (mag_bounds m2 e2 H2) as [_ Hm2]. specialize (Hm2 ltac:(lia)).
  assert (2 ^ (prec + (e1 - emin)) <= 2 ^ (prec - 1 + (e2 - emin))).
  { apply Z.pow_le_mono_r; unfold prec, emin in *; lia. }
  lia.
Qed.

Lemma mag_compare (m1 m2 : positive) (e1 e2 : Z) :
  bounded prec emax m1 e1 = true -> bounded prec emax m2 e2 = true ->
  (Zpos m1 * 2 ^ (e1 - emin) ?= Zpos m2 * 2 ^ (e2 - emin)) =
  match e1 ?= e2 with
  | Lt => Lt
  | Gt => Gt
  | Eq => Pos.compare_cont Eq m1 m2
  end.
Proof.
  intros H1 H2. destruct (Z.compare_spec e1 e2) as [-> | Hlt | Hgt].
  - destruct (bounded_inv m2 e2 H2) as (He & _).
    rewrite <- Zmult_compare_compat_r by (apply Z.lt_gt, Z.pow_pos_nonneg; lia).
    reflexivity.
  - apply Z.compare_lt_iff. apply mag_lt_exp; assumption.
  - apply Z.compare_gt_iff. apply mag_lt_exp; assumption.
Qed.

Lemma SFcompare_toZ (x y : spec_float) :
  num x = true -> num y = true -> SFcompare x y = Some (toZ x ?= toZ y).
Proof.
  unfold num, valid. rewrite !andb_true_iff.
  intros [Vx Nx] [Vy Ny].
  assert (0 < huge) by (cbv; reflexivity).
  destruct x as [sx | sx | | sx mx ex], y as [sy | sy | | sy my ey];
    try discriminate; cbn [valid_binary] in Vx, Vy;
    try (pose proof (mag_lt_huge _ _ Vx)); try (pose proof (mag_lt_huge _ _ Vy));
    cbn [SFcompare toZ]; f_equal; symmetry;
    try (destruct sx; cbn [cond_Zopp]; compare_by_lia);
    try (destruct sy; cbn [cond_Zopp]; compare_by_lia);
    try (destruct sx, sy; cbn [cond_Zopp]; compare_by_lia).
  destruct sx, sy; cbn [cond_Zopp].
  - rewrite Z.compare_opp, (mag_compare my mx ey ex Vy Vx).
    rewrite (Z.compare_antisym ex ey), (ZC4 my mx).
    destruct (ex ?= ey); reflexivity.
  - compare_by_lia.
  - compare_by_lia.
  - apply mag_compare; assumption.
Qed.

(** *** Rounding at the level of values *)

Lemma bounded_intro (n e : Z) :
  0 < n -> emin <= e <= emax - prec ->
  Zdigits2 n <= prec -> (emin < e -> Zdigits2 n = prec) ->
  bounded prec emax (Z.to_pos n) e = true.
Proof.
  intros Hn He Hd Hnorm. unfold bounded, canonical_mantissa.
  rewrite andb_true_iff, Z.eqb_eq, Z.leb_le, fexp_eq.
  change (Zpos (digits2_pos (Z.to_pos n))) with (Zdigits2 (Zpos (Z.to_pos n))).
  rewrite Z2Pos.id by assumption. lia.
Qed.

Lemma Zdigits2_le_prec (n : Z) : 0 < n -> n < 2 ^ prec -> Zdigits2 n <= prec.
Proof.
  intros Hn Hlt. pose proof (Zdigits2_bounds n Hn) as Hd.
  destruct (Z_le_gt_dec (Zdigits2 n) prec) as [| Hgt]; [assumption |].
  assert (2 ^ prec <= 2 ^ (Zdigits2 n - 1)) by (apply Z.pow_le_mono_r; unfold prec in *; lia).
  lia.
Qed.

Lemma finish_spec (s : bool) (n k : Z) :
  1 <= n <= 2 ^ prec -> 0 <= k -> (0 < k -> 2 ^ (prec - 1) <= n) ->
  num (finish s n k) = true /\
  toZ (finish s n k) = cond_Zopp s (Z.min (n * 2 ^ k) huge).
Proof.
  intros Hn Hk Hnorm. unfold finish.
  assert (0 < 2 ^ k) as HP by (apply Z.pow_pos_nonneg; lia).
  assert (2 ^ prec = 2 * 2 ^ (prec - 1)) as Hpp by reflexivity.
  assert (0 < 2 ^ (prec - 1)) as Hp1 by (cbv; reflexivity).
  destruct (Z.eqb_spec n (2 ^ prec)) as [-> | Hne].
  - destruct (Z.leb_spec (emin + (k + 1)) (emax - prec)) as [Hle | Hgt].
    + split.
      * unfold num, valid. cbn [valid_binary is_nan negb]. rewrite andb_true_r.
        apply bounded_intro; try assumption; try (unfold emin, emax, prec in *; lia);
          intros; reflexivity.
      * cbn [toZ]. rewrite Z2Pos.id by assumption. f_equal.
        replace (emin + (k + 1) - emin) with (Z.succ k) by lia.
        rewrite Z.pow_succ_r by lia.
        assert (2 ^ prec * 2 ^ k < huge); [| lia].
        unfold huge. rewrite <- Z.pow_add_r by (unfold prec; lia).
        apply Z.pow_lt_mono_r; unfold emin, emax, prec in *; lia.
    + split; [reflexivity |]. cbn [toZ]. f_equal.
      assert (huge <= 2 ^ prec * 2 ^ k); [| lia].
      unfold huge. rewrite <- Z.pow_add_r by (unfold prec; lia).
      apply Z.pow_le_mono_r; unfold emin, emax, prec in *; lia.
  - assert (n < 2 ^ prec) as Hlt by lia.
    destruct (Z.leb_spec (emin + k) (emax - prec)) as [Hle | Hgt].
    + split.
      * unfold num, valid. cbn [valid_binary is_nan negb]. rewrite andb_true_r.
        apply bounded_intro; try lia.
        -- apply Zdigits2_le_prec; lia.
        -- intros Hk'. apply Zdigits2_unique; [lia |]. split; [apply Hnorm |]; lia.
      * cbn [toZ]. rewrite Z2Pos.id by lia. f_equal.
        replace (emin + k - emin) with k by lia.
        assert (n * 2 ^ k < huge); [| lia].
        assert (2 ^ prec * 2 ^ k <= huge); [| nia].
        unfold huge. rewrite <- Z.pow_add_r by (unfold prec; lia).
        apply Z.pow_le_mono_r; unfold emin, emax, prec in *; lia.
    + split; [reflexivity |]. cbn [toZ]. f_equal.
      assert (huge <= n * 2 ^ k); [| lia].
      specialize (Hnorm ltac:(unfold emin, emax, prec in *; lia)).
      assert (huge <= 2 ^ (prec - 1) * 2 ^ k); [| nia].
      unfold huge. rewrite <- Z.pow_add_r by (unfold prec; lia).
      apply Z.pow_le_mono_r; unfold emin, emax, prec in *; lia.
Qed.

Lemma round_pos_spec (s : bool) (N : Z) :
  0 < N ->
  num (round_pos s N) = true /\ toZ (round_pos s N) = cond_Zopp s (rnd_mag N).
Proof.
  intros HN. destruct (rne_rexp_bounds N HN) as [Hb Hnorm].
  apply finish_spec; [assumption | apply rexp_nonneg | assumption].
Qed.

Lemma rnd_mag_pos (N : Z) : 0 < N -> 0 < rnd_mag N.
Proof.
  intros HN. destruct (rne_rexp_bounds N HN) as [Hb _].
  pose proof (rexp_nonneg N).
  assert (0 < 2 ^ rexp N) by (apply Z.pow_pos_nonneg; lia).
  assert (0 < huge) by (cbv; reflexivity).
  unfold rnd_mag. nia.
Qed.

Lemma rnd_mag_mono (N1 N2 : Z) : 0 < N1 -> N1 <= N2 -> rnd_mag N1 <= rnd_mag N2.
Proof.
  intros H1 Hle. unfold rnd_mag. apply Z.min_le_compat_r.
  assert (0 < N2) as H2 by lia.
  pose proof (Zdigits2_mono N1 N2 H1 Hle) as Hd.
  pose proof (Zdigits2_pos N1 H1) as Hp1.
  pose proof (rexp_nonneg N1) as Hk1. pose proof (rexp_nonneg N2) as Hk2.
  assert (rexp N1 <= rexp N2) as Hk by (unfold rexp; lia).
  destruct (Z.eq_dec (rexp N1) (rexp N2)) as [Heq | Hne].
  - rewrite Heq. apply Z.mul_le_mono_nonneg_r; [apply Z.pow_nonneg; lia |].
    apply rne_shift_mono; assumption.
  - assert (rexp N2 = Zdigits2 N2 - prec /\ 0 < rexp N2) as [E2 Hpos2] by (unfold rexp in *; lia).
    assert (rexp N1 <= Zdigits2 N1) as Hkd by (unfold rexp, prec in *; lia).
    assert (Zdigits2 N1 <= Zdigits2 N2 - 1) as Hdd by (unfold rexp in *; lia).
    apply Z.le_trans with (2 ^ Zdigits2 N1); [| apply Z.le_trans with (2 ^ (Zdigits2 N2 - 1))].
    + pose proof (Zdigits2_bounds N1 H1) as B1.
      replace (2 ^ Zdigits2 N1) with (2 ^ (Zdigits2 N1 - rexp N1) * 2 ^ rexp N1)
        by (rewrite <- Z.pow_add_r by lia; f_equal; lia).
      apply Z.mul_le_mono_nonneg_r; [apply Z.pow_nonneg; lia |].
      rewrite <- (rne_shift_exact (2 ^ (Zdigits2 N1 - rexp N1)) (rexp N1)) by assumption.
      apply rne_shift_mono; [assumption |].
      rewrite <- Z.pow_add_r by lia.
      replace (Zdigits2 N1 - rexp N1 + rexp N1) with (Zdigits2 N1) by lia. lia.
    + apply Z.pow_le_mono_r; lia.
    + destruct (rne_rexp_bounds N2 H2) as [_ Hn]. specialize (Hn Hpos2).
      replace (2 ^ (Zdigits2 N2 - 1)) with (2 ^ (prec - 1) * 2 ^ rexp N2)
        by (rewrite <- Z.pow_add_r by (unfold prec; lia); f_equal; lia).
      apply Z.mul_le_mono_nonneg_r; [apply Z.pow_nonneg; lia | assumption].
Qed.

Lemma rnd_mag_repr (m : positive) (e : Z) :
  bounded prec emax m e = true ->
  rnd_mag (Zpos m * 2 ^ (e - emin)) = Zpos m * 2 ^ (e - emin).
Proof.
  intros Hb. destruct (bounded_inv m e Hb) as (He & Hk & _).
  pose proof (mag_lt_huge m e Hb).
  unfold rnd_mag. rewrite <- Hk, rne_shift_exact by lia. lia.
Qed.

Lemma rnd_0 : rnd 0 = 0.
Proof. reflexivity. Qed.

Lemma rnd_pos (N : Z) : 0 < N -> 0 < rnd N.
Proof. intros HN. destruct N; try lia. apply rnd_mag_pos; lia. Qed.

Lemma rnd_opp (N : Z) : rnd (- N) = - rnd N.
Proof. destruct N; cbn [rnd Z.opp]; lia. Qed.

Lemma rnd_mono (a b : Z) : a <= b -> rnd a <= rnd b.
Proof.
  intros Hab.
  destruct a as [| a | a], b as [| b | b]; cbn [rnd]; try lia.
  - pose proof (rnd_mag_pos (Zpos b)); lia.
  - apply rnd_mag_mono; lia.
  - pose proof (rnd_mag_pos (Zpos a)); lia.
  - pose proof (rnd_mag_pos (Zpos a)); pose proof (rnd_mag_pos (Zpos b)); lia.
  - assert (rnd_mag (Zpos b) <= rnd_mag (Zpos a)); [apply rnd_mag_mono |]; lia.
Qed.

(** *** Subtraction *)

Lemma rnd_of_pos (N : Z) : 0 < N -> rnd N = rnd_mag N.
Proof. intros HN. destruct N; try lia. reflexivity. Qed.

Lemma rnd_repr (s : bool) (m : positive) (e : Z) :
  bounded prec emax m e = true ->
  rnd (cond_Zopp s (Zpos m * 2 ^ (e - emin))) = cond_Zopp s (Zpos m * 2 ^ (e - emin)).
Proof.
  intros Hb. pose proof (mag_lt_huge m e Hb) as Hm.
  destruct s; cbn [cond_Zopp]; [rewrite rnd_opp |];
    rewrite rnd_of_pos, rnd_mag_repr by (assumption || lia); reflexivity.
Qed.

Lemma cond_Zopp_mul (s : bool) (a c : Z) : cond_Zopp s a * c = cond_Zopp s (a * c).
Proof. destruct s; cbn [cond_Zopp]; lia. Qed.

Lemma binary_normalize_spec (M e : Z) :
  emin <= e ->
  num (binary_normalize prec emax M e false) = true /\
  toZ (binary_normalize prec emax M e false) = rnd (M * 2 ^ (e - emin)).
Proof.
  intros He. assert (0 < 2 ^ (e - emin)) as HP by (apply Z.pow_pos_nonneg; lia).
  destruct M as [| p | p]; cbn [binary_normalize].
  - split; reflexivity.
  - rewrite binary_round_eq by assumption.
    destruct (round_pos_spec false (Zpos p * 2 ^ (e - emin)) ltac:(lia)) as [Hn Hv].
    split; [assumption |]. rewrite Hv, rnd_of_pos by lia. reflexivity.
  - rewrite binary_round_eq by assumption.
    destruct (round_pos_spec true (Zpos p * 2 ^ (e - emin)) ltac:(lia)) as [Hn Hv].
    split; [assumption |]. rewrite Hv. cbn [cond_Zopp].
    replace (Zneg p * 2 ^ (e - emin)) with (- (Zpos p * 2 ^ (e - emin))) by lia.
    rewrite rnd_opp, rnd_of_pos by lia. reflexivity.
Qed.

Lemma shl_align_min (m : positive) (e e' : Z) :
  emin <= e -> emin <= e' ->
  Zpos (fst (shl_align m e (Z.min e e'))) * 2 ^ (Z.min e e' - emin)
  = Zpos m * 2 ^ (e - emin).
Proof.
  intros He He'. destruct (shl_align_spec m e (Z.min e e')) as [-> _].
  replace (Z.min e (Z.min e e')) with (Z.min e e') by lia.
  rewrite <- Z.mul_assoc, <- Z.pow_add_r by lia. do 2 f_equal. lia.
Qed.

Lemma price_inv (x : spec_float) :
  price x = true ->
  (exists s, x = S754_zero s) \/
  (exists s m e, x = S754_finite s m e /\ bounded prec emax m e = true).
Proof.
  unfold price, valid. rewrite andb_true_iff. intros [Hv Hf].
  destruct x as [s | s | | s m e]; try discriminate.
  - left. exists s. reflexivity.
  - right. exists s, m, e. split; [reflexivity | exact Hv].
Qed.

Lemma price_num (x : spec_float) : price x = true -> num x = true.
Proof.
  unfold price, num. rewrite !andb_true_iff. intros [Hv Hf]. split; [assumption |].
  destruct x; try discriminate; reflexivity.
Qed.

Lemma sub_spec (x y : spec_float) :
  price x = true -> price y = true ->
  num (sub x y) = true /\ toZ (sub x y) = rnd (toZ x - toZ y).
Proof.
  intros Hx Hy.
  destruct (price_inv x Hx) as [[sx ->] | (sx & mx & ex & -> & Bx)];
  destruct (price_inv y Hy) as [[sy ->] | (sy & my & ey & -> & By)].
  - destruct sx, sy; split; reflexivity.
  - unfold sub; cbn [SFsub toZ]. split.
    + unfold num, valid; cbn [valid_binary is_nan negb]. rewrite By. reflexivity.
    + rewrite Z.sub_0_l, rnd_opp, rnd_repr by assumption.
      destruct sy; cbn [negb cond_Zopp]; lia.
  - unfold sub; cbn [SFsub toZ]. split.
    + apply price_num; assumption.
    + rewrite Z.sub_0_r, rnd_repr by assumption. reflexivity.
  - destruct (bounded_inv mx ex Bx) as (Hex & _).
    destruct (bounded_inv my ey By) as (Hey & _).
    unfold sub; cbn [SFsub toZ].
    destruct (binary_normalize_spec
                (cond_Zopp sx (Zpos (fst (shl_align mx ex (Z.min ex ey)))) -
                 cond_Zopp sy (Zpos (fst (shl_align my ey (Z.min ex ey)))))
                (Z.min ex ey) ltac:(lia)) as [Hn Hv].
    split; [exact Hn |]. rewrite Hv. f_equal.
    rewrite Z.mul_sub_distr_r, !cond_Zopp_mul.
    rewrite (shl_align_min mx ex ey) by lia.
    rewrite (Z.min_comm ex ey), (shl_align_min my ey ex) by lia.
    reflexivity.
Qed.

(** ** Order facts that hold of every [spec_float] *)

Lemma ltb_zero_trans (a b : float) :
  leb zero a = true -> ltb a b = true -> ltb zero b = true.
Proof.
  destruct a as [sa | sa | | sa ma ea], b as [sb | sb | | sb mb eb];
    try destruct sa; try destruct sb; cbn; congruence.
Qed.

Lemma ltb_leb_zero (a : float) : ltb zero a = true -> leb zero a = true.
Proof.
  destruct a as [sa | sa | | sa ma ea]; try destruct sa; cbn; congruence.
Qed.

Lemma ltb_nonneg_zero (a : float) (s : bool) :
  leb zero a = true -> ltb a (S754_zero s) = false.
Proof.
  destruct a as [sa | sa | | sa ma ea]; try destruct sa; cbn; congruence.
Qed.

Lemma ltb_nan_r (a : float) : ltb a S754_nan = false.
Proof. destruct a; reflexivity. Qed.

Lemma sub_finite_self (s : bool) (m : positive) (e : Z) :
  sub (S754_finite s m e) (S754_finite s m e) = zero.
Proof. unfold sub. cbn [SFsub]. rewrite Z.sub_diag. reflexivity. Qed.

Lemma sub_self (x : float) : is_finite x = true -> sub x x = zero.
Proof.
  destruct x as [s | s | | s m e]; try discriminate; intros _.
  - destruct s; reflexivity.
  - apply sub_finite_self.
Qed.

(** Two floats neither of which is below the other differ by a zero, or the
    difference is not a number. *)
Lemma sub_unordered (x y : float) :
  ltb x y = false -> ltb y x = false ->
  sub x y = S754_nan \/ exists s, sub x y = S754_zero s.
Proof.
  destruct x as [sx | sx | | sx mx ex], y as [sy | sy | | sy my ey];
    try (intros _ _; left; reflexivity);
    try (destruct sx; cbn; discriminate);
    try (destruct sy; cbn; discriminate);
    try (destruct sx, sy; cbn; discriminate).
  - intros _ _. right. destruct sx, sy; cbn; eauto.
  - destruct sx, sy; cbn; try discriminate; intros _ _; left; reflexivity.
  - unfold ltb, SFltb. cbn [SFcompare].
    rewrite (Z.compare_antisym ex ey), (ZC4 my mx).
    destruct sx, sy; try discriminate;
      destruct (ex ?= ey) eqn:He; cbn [CompOpp]; try discriminate;
      destruct (Pos.compare_cont Eq mx my) eqn:Hm; cbn [CompOpp]; try discriminate;
      intros _ _; apply Z.compare_eq in He; apply Pcompare_Eq_eq in Hm; subst;
      right; exists false; apply sub_finite_self.
Qed.

Lemma ltb_sub_unordered (a x y : float) :
  leb zero a = true -> ltb x y = false -> ltb y x = false ->
  ltb a (sub x y) = false.
Proof.
  intros Ha H1 H2. destruct (sub_unordered x y H1 H2) as [-> | [s ->]].
  - apply ltb_nan_r.
  - apply ltb_nonneg_zero; assumption.
Qed.

Lemma ltb_irrefl (x : float) : ltb x x = false.
Proof.
  destruct x as [s | s | | s m e]; try destruct s; try reflexivity;
    unfold ltb, SFltb; cbn [SFcompare]; rewrite Z.compare_refl, Pcompare_refl; reflexivity.
Qed.

(** ** The loop *)

Lemma len_nonneg (ps : list float) : 0 <= len ps.
Proof. unfold len. lia. Qed.

Lemma load_in_range (m : memory) (i : Z) :
  0 <= i < len (prices m) -> load m i = Some (at_ (prices m) i).
Proof.
  unfold len, load, at_. intros Hi.
  destruct (Z.ltb_spec i 0) as [| _]; [lia |].
  destruct (nth_error (prices m) (Z.to_nat i)) as [p |] eqn:E.
  - f_equal. symmetry. apply nth_error_nth. assumption.
  - apply nth_error_None in E. lia.
Qed.

Lemma load_out_of_range (m : memory) (i : Z) :
  i < 0 \/ len (prices m) <= i -> load m i = None.
Proof.
  unfold len, load. intros Hi.
  destruct (Z.ltb_spec i 0) as [| Hge]; [reflexivity |].
  apply nth_error_None. lia.
Qed.

(** The four paths through the body. *)
Lemma body_inv (i : Z) (m : memory) (f : frame) (st' : memory * frame) :
  body i (m, f) = Some st' ->
  exists p, load m i = Some p /\
    st' = let mp := if ltb p (minPrice f) then p else minPrice f in
          let mt := if ltb p (minPrice f) then i else minTime f in
          if ltb (maxProfit f) (sub p mp)
          then (mkMemory (prices m) mt i, mkFrame mp mt (sub p mp))
          else (m, mkFrame mp mt (maxProfit f)).
Proof.
  unfold body, bind. destruct (load m i) as [p |]; [| discriminate].
  intros H. exists p. split; [reflexivity |].
  destruct f as [mp mt pr]. cbn [minPrice minTime maxProfit] in *.
  destruct (ltb p mp); cbn [minPrice minTime maxProfit] in *;
    destruct (ltb pr _); congruence.
Qed.

Lemma body_total (i : Z) (st : memory * frame) :
  0 <= i < len (prices (fst st)) -> exists st', body i st = Some st'.
Proof.
  destruct st as [m f]. cbn [fst]. intros Hi. unfold body, bind.
  rewrite load_in_range by assumption.
  destruct (ltb _ _); destruct (ltb _ _); eauto.
Qed.

(** The count of iterations stands for the guard: the model satisfies the
    equation of [for (; i < n; i++) body]. *)
Lemma for_loop_guard (n i : Z) (st : memory * frame) :
  for_loop (Z.to_nat (n - i)) i st =
  if i <? n
  then st' <- body i st ;; for_loop (Z.to_nat (n - (i + 1))) (i + 1) st'
  else Some st.
Proof.
  destruct (Z.ltb_spec i n) as [Hlt | Hge].
  - replace (Z.to_nat (n - i)) with (S (Z.to_nat (n - (i + 1)))) by lia.
    reflexivity.
  - replace (Z.to_nat (n - i)) with O by lia. reflexivity.
Qed.

Lemma for_loop_invariant (ps : list float) (P : Z -> memory * frame -> Prop) :
  (forall i st, P i st -> prices (fst st) = ps) ->
  (forall i st st',
      1 <= i < len ps -> P i st -> body i st = Some st' -> P (i + 1) st') ->
  forall k i st,
    1 <= i -> i + Z.of_nat k <= len ps -> P i st ->
    exists st', for_loop k i st = Some st' /\ P (i + Z.of_nat k) st'.
Proof.
  intros Hps Hstep. induction k as [| k IH]; intros i st Hi Hk HP.
  - exists st. split; [reflexivity |]. replace (i + Z.of_nat 0) with i by lia. assumption.
  - destruct (body_total i st) as [st1 E1].
    { rewrite (Hps i st HP). lia. }
    cbn [for_loop]. rewrite E1. cbn [bind].
    destruct (IH (i + 1) st1) as (st' & E & HP'); [lia | lia | |].
    + apply (Hstep i st st1); [lia | assumption | assumption].
    + exists st'. split; [assumption |].
      replace (i + Z.of_nat (S k)) with (i + 1 + Z.of_nat k) by lia. assumption.
Qed.

(** The call on a non-empty sequence: the loop runs from [1] to [len ps]. *)
Lemma findBestTrade_invariant (ps : list float) (b0 s0 : Z)
      (P : Z -> memory * frame -> Prop) :
  ps <> [] ->
  (forall i st, P i st -> prices (fst st) = ps) ->
  P 1 (mkMemory ps 0 0, mkFrame (at_ ps 0) 0 zero) ->
  (forall i st st',
      1 <= i < len ps -> P i st -> body i st = Some st' -> P (i + 1) st') ->
  exists st', findBestTrade ps b0 s0 = Some st' /\ P (len ps) st'.
Proof.
  intros Hne Hps Hinit Hstep.
  assert (1 <= len ps) as Hlen.
  { unfold len. destruct ps; [congruence | cbn [length]; lia]. }
  unfold findBestTrade, findBestBuySellTimes.
  rewrite load_in_range by (cbn [prices]; fold (len ps); lia).
  cbn [bind prices]. fold (len ps).
  destruct (for_loop_invariant ps P Hps Hstep (Z.to_nat (len ps - 1)) 1
              (mkMemory ps 0 0, mkFrame (at_ ps 0) 0 zero))
    as (st' & E & HP); [lia | lia | assumption |].
  exists st'. split; [assumption |].
  rewrite Z2Nat.id in HP by lia.
  replace (1 + (len ps - 1)) with (len ps) in HP by lia. assumption.
Qed.

Lemma body_prices (i : Z) (st st' : memory * frame) :
  body i st = Some st' -> prices (fst st') = prices (fst st).
Proof.
  destruct st as [m f]. intros H. destruct (body_inv i m f st' H) as (p & _ & ->).
  cbv zeta. destruct (ltb (maxProfit f) _); reflexivity.
Qed.

Lemma for_loop_prices (k : nat) (i : Z) (st st' : memory * frame) :
  for_loop k i st = Some st' -> prices (fst st') = prices (fst st).
Proof.
  revert i st. induction k as [| k IH]; intros i st H; cbn [for_loop] in H.
  - injection H as <-. reflexivity.
  - destruct (body i st) as [st1 |] eqn:E; cbn [bind] in H; [| discriminate].
    rewrite (IH _ _ H). apply (body_prices i st st1 E).
Qed.

Lemma findBestBuySellTimes_cells (n : Z) (m : memory) (b s : Z) :
  findBestBuySellTimes n (mkMemory (prices m) b s) = findBestBuySellTimes n m.
Proof. reflexivity. Qed.

(** ** Order on numbers *)

Lemma ltb_toZ (x y : float) :
  num x = true -> num y = true -> ltb x y = (toZ x <? toZ y).
Proof.
  intros Hx Hy. unfold ltb, SFltb. rewrite (SFcompare_toZ x y Hx Hy).
  unfold Z.ltb. destruct (toZ x ?= toZ y); reflexivity.
Qed.

Lemma leb_toZ (x y : float) :
  num x = true -> num y = true -> leb x y = (toZ x <=? toZ y).
Proof.
  intros Hx Hy. unfold leb, SFleb. rewrite (SFcompare_toZ x y Hx Hy).
  unfold Z.leb. destruct (toZ x ?= toZ y); reflexivity.
Qed.

Lemma num_zero : num zero = true.
Proof. reflexivity. Qed.

Lemma eqb_refl (x : float) : num x = true -> eqb x x = true.
Proof.
  intros Hx. unfold eqb, SFeqb. rewrite (SFcompare_toZ x x Hx Hx), Z.compare_refl.
  reflexivity.
Qed.

Lemma price_finite (x : float) : price x = true -> is_finite x = true.
Proof. unfold price. rewrite andb_true_iff. intros [_ H]. exact H. Qed.

Lemma len_pos (ps : list float) : ps <> [] -> 1 <= len ps.
Proof. unfold len. destruct ps; [congruence | cbn [length]; lia]. Qed.

(** ** The invariants are kept *)

Section Scan.

Variable ps : list float.

Lemma inv_struct_prices (i : Z) (st : memory * frame) :
  inv_struct ps i st -> prices (fst st) = ps.
Proof. intros (H & _). exact H. Qed.

Lemma inv_struct_nonneg (i : Z) (st : memory * frame) :
  inv_struct ps i st -> leb zero (maxProfit (snd st)) = true.
Proof.
  intros (_ & _ & _ & _ & _ & [(_ & _ & ->) | (_ & H & _)]).
  - reflexivity.
  - apply ltb_leb_zero; assumption.
Qed.

Lemma inv_struct_init :
  inv_struct ps 1 (mkMemory ps 0 0, mkFrame (at_ ps 0) 0 zero).
Proof.
  unfold inv_struct; cbn [fst snd prices buyTime sellTime minPrice minTime maxProfit].
  repeat split; try lia. left. repeat split.
Qed.

Lemma inv_struct_step (i : Z) (st st' : memory * frame) :
  1 <= i < len ps -> inv_struct ps i st -> body i st = Some st' ->
  inv_struct ps (i + 1) st'.
Proof.
  intros Hi Hinv Hbody. pose proof (inv_struct_nonneg i st Hinv) as Hnn.
  destruct st as [m f]. destruct Hinv as (Hps & Hmt & Hmp & Hbs & Hs & Hcase).
  cbn [fst snd] in *.
  destruct (body_inv i m f st' Hbody) as (p & Hload & ->).
  rewrite load_in_range in Hload by (rewrite Hps; lia).
  injection Hload as <-. rewrite Hps. cbv zeta.
  destruct (ltb (at_ ps i) (minPrice f)) eqn:Hmin;
    destruct (ltb (maxProfit f) (sub (at_ ps i) _)) eqn:Hup;
    unfold inv_struct; cbn [fst snd prices buyTime sellTime minPrice minTime maxProfit].
  - (* a new least price cannot be sold at once *)
    rewrite ltb_sub_unordered in Hup by (assumption || apply ltb_irrefl). discriminate.
  - repeat split; try lia; try assumption.
  - repeat split; try lia; try assumption. right. repeat split; try lia.
    + apply (ltb_zero_trans (maxProfit f)); assumption.
    + rewrite <- Hmp. reflexivity.
  - repeat split; try lia; try assumption.
Qed.

Lemma findBestTrade_struct (b0 s0 : Z) :
  ps <> [] ->
  exists st, findBestTrade ps b0 s0 = Some st /\ inv_struct ps (len ps) st.
Proof.
  intros Hne. apply findBestTrade_invariant.
  - assumption.
  - apply inv_struct_prices.
  - apply inv_struct_init.
  - apply inv_struct_step.
Qed.

Lemma inv_flat_step (i : Z) (st st' : memory * frame) :
  never_rises ps ->
  1 <= i < len ps -> inv_struct ps i st -> inv_flat st -> body i st = Some st' ->
  inv_flat st'.
Proof.
  intros Hflat Hi Hinv Hfl Hbody.
  destruct st as [m f]. destruct Hinv as (Hps & Hmt & Hmp & _).
  destruct Hfl as (Hb & Hs & Hp). cbn [fst snd] in *.
  destruct (body_inv i m f st' Hbody) as (p & Hload & ->).
  rewrite load_in_range in Hload by (rewrite Hps; lia).
  injection Hload as <-. rewrite Hps, Hp. cbv zeta.
  destruct (ltb (at_ ps i) (minPrice f)) eqn:Hmin.
  - rewrite ltb_sub_unordered by (reflexivity || apply ltb_irrefl).
    repeat split; assumption.
  - rewrite ltb_sub_unordered; [repeat split; assumption | reflexivity | assumption |].
    rewrite Hmp. apply Hflat; lia.
Qed.

Section Prices.

Hypothesis Hne : ps <> [].
Hypothesis Hall : forallb price ps = true.

Lemma price_at (i : Z) : 0 <= i < len ps -> price (at_ ps i) = true.
Proof.
  intros Hi. rewrite forallb_forall in Hall. apply Hall.
  unfold at_. apply nth_In. unfold len in Hi. lia.
Qed.

Lemma inv_order_init :
  inv_order ps 1 (mkMemory ps 0 0, mkFrame (at_ ps 0) 0 zero).
Proof.
  pose proof (len_pos ps Hne).
  unfold inv_order; cbn [fst snd prices buyTime sellTime minPrice minTime maxProfit].
  split; [| split; [| split; [| split]]].
  - intros j Hj. replace j with 0 by lia. lia.
  - intros j Hj. lia.
  - reflexivity.
  - intros b s Hb Hs. replace s with 0 by lia. replace b with 0 by lia.
    rewrite sub_self by (apply price_finite, price_at; lia). cbn. lia.
  - intros Hlt. lia.
Qed.

Lemma inv_order_step (i : Z) (st st' : memory * frame) :
  1 <= i < len ps -> inv_struct ps i st -> inv_order ps i st ->
  body i st = Some st' -> inv_order ps (i + 1) st'.
Proof.
  intros Hi Hinv Hord Hbody.
  destruct st as [m f]. destruct Hinv as (Hps & Hmt & Hmp & Hbs & Hs & _).
  destruct Hord as (Hlow & Hfirst & Hnum & Hmax & Hbuy).
  cbn [fst snd] in *.
  destruct (body_inv i m f st' Hbody) as (p & Hload & ->).
  rewrite load_in_range in Hload by (rewrite Hps; lia).
  injection Hload as <-. rewrite Hps. cbv zeta.
  assert (price (at_ ps i) = true) as Pp by (apply price_at; lia).
  assert (price (minPrice f) = true) as Pm by (rewrite Hmp; apply price_at; lia).
  assert (forall b, 0 <= b <= i -> price (at_ ps b) = true) as Pb
      by (intros b Hb; apply price_at; lia).
  rewrite (ltb_toZ (at_ ps i) (minPrice f)) by (apply price_num; assumption).
  (* the least price and its time after line 26 *)
  set (mp := if toZ (at_ ps i) <? toZ (minPrice f) then at_ ps i else minPrice f).
  set (mt := if toZ (at_ ps i) <? toZ (minPrice f) then i else minTime f).
  assert (price mp = true /\ mp = at_ ps mt /\ 0 <= mt <= i /\
          (forall j, 0 <= j < i + 1 -> toZ mp <= toZ (at_ ps j)) /\
          (forall j, 0 <= j < mt -> toZ mp < toZ (at_ ps j)))
    as (Pmp & Emp & Hmt' & Hlow' & Hfirst').
  { unfold mp, mt.
    destruct (Z.ltb_spec (toZ (at_ ps i)) (toZ (minPrice f))) as [Hlt | Hge].
    - repeat split; try assumption; try lia.
      + intros j Hj. destruct (Z.eq_dec j i) as [-> | Hneq]; [lia |].
        specialize (Hlow j ltac:(lia)). lia.
      + intros j Hj. specialize (Hlow j ltac:(lia)). lia.
    - repeat split; try assumption; try lia.
      + intros j Hj. destruct (Z.eq_dec j i) as [-> | Hneq]; [lia |].
        apply Hlow. lia. }
  (* the profit of line 27 bounds every sale at time [i] *)
  destruct (sub_spec (at_ ps i) mp Pp Pmp) as [Npr Vpr].
  assert (forall b, 0 <= b <= i ->
                    toZ (sub (at_ ps i) (at_ ps b)) <= toZ (sub (at_ ps i) mp)) as Hnew.
  { intros b Hb. destruct (sub_spec (at_ ps i) (at_ ps b) Pp (Pb b Hb)) as [_ ->].
    rewrite Vpr. apply rnd_mono. specialize (Hlow' b ltac:(lia)). lia. }
  rewrite (ltb_toZ (maxProfit f) (sub (at_ ps i) mp)) by assumption.
  destruct (Z.ltb_spec (toZ (maxProfit f)) (toZ (sub (at_ ps i) mp))) as [Hup | Hno];
    unfold inv_order; cbn [fst snd prices buyTime sellTime minPrice minTime maxProfit];
    (split; [exact Hlow' | split; [exact Hfirst' | split; [| split]]]).
  - exact Npr.
  - intros b s Hb Hs'. destruct (Z.eq_dec s i) as [-> | Hneq].
    + apply Hnew. lia.
    + specialize (Hmax b s Hb ltac:(lia)). lia.
  - intros _. rewrite <- Emp. split.
    + intros j Hj. apply Hlow'. lia.
    + exact Hfirst'.
  - exact Hnum.
  - intros b s Hb Hs'. destruct (Z.eq_dec s i) as [-> | Hneq].
    + specialize (Hnew b ltac:(lia)). lia.
    + apply Hmax; lia.
  - exact Hbuy.
Qed.

Lemma findBestTrade_full (b0 s0 : Z) :
  exists st, findBestTrade ps b0 s0 = Some st /\ inv_full ps (len ps) st.
Proof.
  apply findBestTrade_invariant.
  - assumption.
  - intros i st [H _]. apply (inv_struct_prices i st H).
  - split; [apply inv_struct_init | apply inv_order_init].
  - intros i st st' Hi [Hs Ho] Hbody. split.
    + apply (inv_struct_step i st st' Hi Hs Hbody).
    + apply (inv_order_step i st st' Hi Hs Ho Hbody).
Qed.

End Prices.

End Scan.

(** ** The model computes in binary32 *)

(** [16777216 - 0.5] is not a binary32 number; the difference is rounded to
    the nearest even neighbour. *)
Example sub_rounds : sub (of_Z 16777216) (dyadic 1 (-1)) = of_Z 16777216.
Proof. reflexivity. Qed.

Example quotes_are_prices : forallb price prices_quotes = true.
Proof. reflexivity. Qed.

(** ** The properties of the specification

    The function returns nothing: the specification's [buyIndex] and
    [sellIndex] are the cells [buyTime] and [sellTime] of the memory at
    return, and its [profit] is the value [maxProfit] holds at return.  A
    sequence of prices is a sequence of binary32 numbers other than the
    infinities and NaN ([price]); [-], [<], [<=] and [==] on prices are the
    operations of the program. *)

(** C1.  On every non-empty sequence of prices the profit the scan ends with
    is the global maximum: no pair of times [b <= s] has a difference
    [prices[s] - prices[b]] above it.  The difference and the comparison are
    those of the program, in binary32. *)
Theorem profit_is_global_maximum (ps : list float) (b0 s0 : Z) :
  ps <> [] -> forallb price ps = true ->
  exists m f,
    findBestTrade ps b0 s0 = Some (m, f) /\
    forall b s, 0 <= b <= s -> s < len ps ->
                ltb (maxProfit f) (sub (at_ ps s) (at_ ps b)) = false.
Proof.
  intros Hne Hall.
  destruct (findBestTrade_full ps Hne Hall b0 s0) as ([m f] & E & Hs & Ho).
  exists m, f. split; [assumption |]. intros b s Hb Hlt.
  destruct Ho as (_ & _ & Hnum & Hmax & _). cbn [fst snd] in *.
  destruct (sub_spec (at_ ps s) (at_ ps b)) as [Hn _];
    try (apply (price_at ps Hall); lia).
  rewrite ltb_toZ by assumption.
  apply Z.ltb_ge. apply Hmax; assumption.
Qed.

Lemma profit_is_global_maximum_witness :
  prices_quotes <> [] /\ forallb price prices_quotes = true /\
  exists m f,
    findBestTrade prices_quotes 0 0 = Some (m, f) /\
    forall b s, 0 <= b <= s -> s < len prices_quotes ->
                ltb (maxProfit f) (sub (at_ prices_quotes s) (at_ prices_quotes b))
                = false.
Proof.
  split; [discriminate |]. split; [reflexivity |].
  apply (profit_is_global_maximum prices_quotes 0 0); [discriminate | reflexivity].
Defined.

(** C2.  On every non-empty sequence of prices the profit the scan ends with
    is the difference [prices[sellTime] - prices[buyTime]] of the prices at
    the two times it stores. *)
Theorem profit_is_difference (ps : list float) (b0 s0 : Z) :
  ps <> [] -> forallb price ps = true ->
  exists m f,
    findBestTrade ps b0 s0 = Some (m, f) /\
    maxProfit f = sub (at_ ps (sellTime m)) (at_ ps (buyTime m)) /\
    eqb (maxProfit f) (sub (at_ ps (sellTime m)) (at_ ps (buyTime m))) = true.
Proof.
  intros Hne Hall.
  destruct (findBestTrade_full ps Hne Hall b0 s0) as ([m f] & E & Hs & Ho).
  exists m, f. split; [assumption |].
  destruct Ho as (_ & _ & Hnum & _).
  destruct Hs as (_ & _ & _ & _ & _ & Hc); cbn [fst snd] in *.
  assert (maxProfit f = sub (at_ ps (sellTime m)) (at_ ps (buyTime m))) as Heq.
  { destruct Hc as [(Hb & Hs & Hp) | (_ & _ & H)]; [| assumption].
    rewrite Hb, Hs, Hp. symmetry. pose proof (len_pos ps Hne).
    apply sub_self, price_finite, (price_at ps Hall). lia. }
  split; [exact Heq |]. rewrite <- Heq. apply eqb_refl. assumption.
Qed.

Lemma profit_is_difference_witness :
  prices_rally <> [] /\ forallb price prices_rally = true /\
  exists m f,
    findBestTrade prices_rally 0 0 = Some (m, f) /\
    maxProfit f = sub (at_ prices_rally (sellTime m)) (at_ prices_rally (buyTime m)) /\
    eqb (maxProfit f)
        (sub (at_ prices_rally (sellTime m)) (at_ prices_rally (buyTime m))) = true.
Proof.
  split; [discriminate |]. split; [reflexivity |].
  apply (profit_is_difference prices_rally 0 0); [discriminate | reflexivity].
Defined.

(** C3.  On every non-empty sequence of length [n] the scan returns, with
    [0 <= buyTime <= sellTime <= n - 1] and a profit [>= 0]. *)
Theorem indices_ordered_profit_nonneg (ps : list float) (b0 s0 : Z) :
  ps <> [] ->
  exists m f,
    findBestTrade ps b0 s0 = Some (m, f) /\
    0 <= buyTime m /\ buyTime m <= sellTime m /\ sellTime m <= len ps - 1 /\
    leb zero (maxProfit f) = true.
Proof.
  intros Hne. destruct (findBestTrade_struct ps b0 s0 Hne) as ([m f] & E & Hinv).
  exists m, f. split; [assumption |].
  pose proof (inv_struct_nonneg _ _ _ Hinv) as Hnn.
  destruct Hinv as (_ & _ & _ & Hbs & Hs & _). cbn [fst snd] in *.
  repeat split; try lia. assumption.
Qed.

Lemma indices_ordered_profit_nonneg_witness :
  prices_zigzag <> [] /\
  exists m f,
    findBestTrade prices_zigzag 3 (-8) = Some (m, f) /\
    0 <= buyTime m /\ buyTime m <= sellTime m /\
    sellTime m <= len prices_zigzag - 1 /\
    leb zero (maxProfit f) = true.
Proof.
  split; [discriminate |].
  apply (indices_ordered_profit_nonneg prices_zigzag 3 (-8)); discriminate.
Defined.

(** C4 (as the code has it).  The function has no error condition.  Called
    with [n <= 1], and so with [n = 0], it runs no iteration: it reads
    [prices[0]], stores [0] in both cells and returns.  With [n = 0] that
    read is outside the sequence; it is defined when the array still holds an
    element and undefined behaviour, not an error the function raises,
    when the array holds none. *)
Theorem no_error_condition (n : Z) (m : memory) :
  n <= 1 ->
  findBestBuySellTimes n m =
  match prices m with
  | p0 :: _ => Some (mkMemory (prices m) 0 0, mkFrame p0 0 zero)
  | [] => None
  end.
Proof.
  intros Hn. unfold findBestBuySellTimes, load.
  replace (Z.to_nat (n - 1)) with O by lia.
  destruct (prices m); reflexivity.
Qed.

Lemma no_error_condition_witness :
  0 <= 1 /\
  findBestBuySellTimes 0 (mkMemory prices_quotes 11 12)
  = Some (mkMemory prices_quotes 0 0, mkFrame (dyadic 405 (-2)) 0 zero).
Proof.
  split; [lia |].
  apply (no_error_condition 0 (mkMemory prices_quotes 11 12)). lia.
Defined.

(** C4 as stated fails: called with [n = 0] on an array with room for one
    price, the function raises nothing; it returns after overwriting the two
    cells, which held 7 and 9. *)
Lemma empty_input_returns :
  findBestBuySellTimes 0 (mkMemory [of_Z 5] 7 9)
  = Some (mkMemory [of_Z 5] 0 0, mkFrame (of_Z 5) 0 zero).
Proof. reflexivity. Qed.

(** C5.  On every non-empty sequence in which no later price exceeds an
    earlier one (non-increasing, constant, or of one element) the scan
    returns, with [buyTime = sellTime = 0] and profit [0].  This holds of
    every sequence of floats, whatever their values. *)
Theorem flat_series_no_trade (ps : list float) (b0 s0 : Z) :
  ps <> [] -> never_rises ps ->
  exists f,
    findBestTrade ps b0 s0 = Some (mkMemory ps 0 0, f) /\ maxProfit f = zero.
Proof.
  intros Hne Hflat.
  destruct (findBestTrade_invariant ps b0 s0
              (fun i st => inv_struct ps i st /\ inv_flat st) Hne)
    as ([m f] & E & Hinv & Hb & Hs & Hp).
  - intros i st [H _]. apply (inv_struct_prices ps i st H).
  - split; [apply inv_struct_init | repeat split].
  - intros i st st' Hi [Hinv Hfl] Hbody. split.
    + apply (inv_struct_step ps i st st' Hi Hinv Hbody).
    + apply (inv_flat_step ps i st st' Hflat Hi Hinv Hfl Hbody).
  - pose proof (inv_struct_prices _ _ _ Hinv) as Hps.
    destruct m as [ps' b s]. cbn in Hps, Hb, Hs, Hp. subst ps' b s.
    exists f. split; assumption.
Qed.

Lemma flat_series_no_trade_witness :
  prices_falling <> [] /\ never_rises prices_falling /\
  exists f,
    findBestTrade prices_falling 5 5 = Some (mkMemory prices_falling 0 0, f) /\
    maxProfit f = zero.
Proof.
  assert (never_rises prices_falling) as Hflat.
  { intros i j Hij Hj. change (len prices_falling) with 5 in Hj.
    assert (i = 0 \/ i = 1 \/ i = 2 \/ i = 3) as Hi by lia.
    assert (j = 1 \/ j = 2 \/ j = 3 \/ j = 4) as Hj' by lia.
    destruct Hi as [-> | [-> | [-> | ->]]];
      destruct Hj' as [-> | [-> | [-> | ->]]]; first [reflexivity | lia]. }
  split; [discriminate |]. split; [exact Hflat |].
  apply (flat_series_no_trade prices_falling 5 5); [discriminate | exact Hflat].
Defined.

(** C6.  On [7, 1, 5, 3, 6, 4] the scan returns [buyTime = 1],
    [sellTime = 4] and profit [5]. *)
Theorem scenario_rally (b0 s0 : Z) :
  findBestTrade prices_rally b0 s0
  = Some (mkMemory prices_rally 1 4, mkFrame (of_Z 1) 1 (of_Z 5)).
Proof. reflexivity. Qed.

(** C7.  On [1, 2, 1, 2, 1, 2] the scan returns [buyTime = 0],
    [sellTime = 1] and profit [1].  The least price recurs at times 2 and 4
    and the same profit is offered again at times 3 and 5; the strict
    comparisons keep the first of each. *)
Theorem scenario_zigzag (b0 s0 : Z) :
  findBestTrade prices_zigzag b0 s0
  = Some (mkMemory prices_zigzag 0 1, mkFrame (of_Z 1) 0 (of_Z 1)) /\
  eqb (at_ prices_zigzag 2) (at_ prices_zigzag 0) = true /\
  eqb (at_ prices_zigzag 4) (at_ prices_zigzag 0) = true /\
  ltb (at_ prices_zigzag 2) (at_ prices_zigzag 0) = false /\
  ltb (at_ prices_zigzag 4) (at_ prices_zigzag 0) = false /\
  sub (at_ prices_zigzag 3) (at_ prices_zigzag 0) = of_Z 1 /\
  sub (at_ prices_zigzag 5) (at_ prices_zigzag 0) = of_Z 1 /\
  ltb (of_Z 1) (sub (at_ prices_zigzag 3) (at_ prices_zigzag 0)) = false /\
  ltb (of_Z 1) (sub (at_ prices_zigzag 5) (at_ prices_zigzag 0)) = false.
Proof. repeat split. Qed.

(** C8.  The function is a pure function of the array and [n]: a call that
    returns leaves the array as it was, its result does not depend on what
    the two cells held before, and a second call on the memory it left
    gives the same result. *)
Theorem pure_function (n : Z) (m m' : memory) (f' : frame) :
  findBestBuySellTimes n m = Some (m', f') ->
  prices m' = prices m /\
  (forall b s, findBestBuySellTimes n (mkMemory (prices m) b s) = Some (m', f')) /\
  findBestBuySellTimes n m' = Some (m', f').
Proof.
  intros H.
  assert (prices m' = prices m) as Hps.
  { unfold findBestBuySellTimes in H.
    destruct (load m 0) as [p0 |]; cbn [bind] in H; [| discriminate].
    apply for_loop_prices in H. exact H. }
  split; [exact Hps |]. split.
  - intros b s. rewrite findBestBuySellTimes_cells. exact H.
  - rewrite <- (findBestBuySellTimes_cells n m' (buyTime m) (sellTime m)), Hps.
    rewrite findBestBuySellTimes_cells. exact H.
Qed.

Lemma pure_function_witness :
  findBestBuySellTimes 4 (mkMemory prices_quotes 17 (-3))
  = Some (mkMemory prices_quotes 1 2,
          mkFrame (dyadic 199 (-1)) 1 (dyadic 61 (-4))) /\
  prices (mkMemory prices_quotes 1 2) = prices (mkMemory prices_quotes 17 (-3)) /\
  (forall b s,
      findBestBuySellTimes 4 (mkMemory (prices (mkMemory prices_quotes 17 (-3))) b s)
      = Some (mkMemory prices_quotes 1 2,
              mkFrame (dyadic 199 (-1)) 1 (dyadic 61 (-4)))) /\
  findBestBuySellTimes 4 (mkMemory prices_quotes 1 2)
  = Some (mkMemory prices_quotes 1 2,
          mkFrame (dyadic 199 (-1)) 1 (dyadic 61 (-4))).
Proof.
  split; [reflexivity |].
  apply (pure_function 4 (mkMemory prices_quotes 17 (-3))
                       (mkMemory prices_quotes 1 2)
                       (mkFrame (dyadic 199 (-1)) 1 (dyadic 61 (-4)))).
  reflexivity.
Defined.

(** C9.  On every non-empty sequence of prices the profit is strictly
    positive exactly when [buyTime < sellTime], and [buyTime < sellTime]
    exactly when some earlier price is below some later one; so
    [buyTime = sellTime] exactly when no such pair exists, and the test
    [buyTime < sellTime] of [main] detects whether a profitable trade
    exists. *)
Theorem profitable_iff_buy_before_sell (ps : list float) (b0 s0 : Z) :
  ps <> [] -> forallb price ps = true ->
  exists m f,
    findBestTrade ps b0 s0 = Some (m, f) /\
    (ltb zero (maxProfit f) = true <-> buyTime m < sellTime m) /\
    (buyTime m < sellTime m <->
     exists b s, 0 <= b < s /\ s < len ps /\ ltb (at_ ps b) (at_ ps s) = true) /\
    (buyTime m = sellTime m <->
     ~ exists b s, 0 <= b < s /\ s < len ps /\ ltb (at_ ps b) (at_ ps s) = true) /\
    (trade_found m = true <->
     exists b s, 0 <= b < s /\ s < len ps /\ ltb (at_ ps b) (at_ ps s) = true).
Proof.
  intros Hne Hall.
  destruct (findBestTrade_full ps Hne Hall b0 s0) as ([m f] & E & Hs & Ho).
  exists m, f. split; [assumption |].
  destruct Hs as (_ & _ & _ & Hbs & Hsl & Hc).
  destruct Ho as (_ & _ & _ & Hmax & _). cbn [fst snd] in *.
  assert (forall j, 0 <= j < len ps -> price (at_ ps j) = true) as Hp
      by (intros j Hj; apply (price_at ps Hall); assumption).
  assert (buyTime m < sellTime m <->
          exists b s, 0 <= b < s /\ s < len ps /\ ltb (at_ ps b) (at_ ps s) = true)
    as Hiff.
  { split.
    - (* the stored pair is itself a rise *)
      intros Hlt. destruct Hc as [(Hb & Hs & _) | (_ & Hpos & Hdiff)]; [lia |].
      exists (buyTime m), (sellTime m). split; [lia |]. split; [lia |].
      rewrite ltb_toZ by (apply price_num, Hp; lia). apply Z.ltb_lt.
      destruct (sub_spec (at_ ps (sellTime m)) (at_ ps (buyTime m))) as [Hn Hv];
        try (apply Hp; lia).
      rewrite Hdiff, ltb_toZ in Hpos by (assumption || reflexivity).
      apply Z.ltb_lt in Hpos. rewrite Hv in Hpos. cbn [toZ zero] in Hpos.
      destruct (Z_lt_le_dec (toZ (at_ ps (buyTime m))) (toZ (at_ ps (sellTime m))))
        as [| Hle]; [assumption |].
      pose proof (rnd_mono (toZ (at_ ps (sellTime m)) - toZ (at_ ps (buyTime m))) 0
                    ltac:(lia)) as Hr.
      rewrite rnd_0 in Hr. lia.
    - (* a rise has a positive difference, which the profit bounds *)
      intros [b [s (Hb & Hs & Hrise)]].
      destruct Hc as [(_ & _ & Hz) | (Hlt & _)]; [| assumption].
      specialize (Hmax b s ltac:(lia) Hs). rewrite Hz in Hmax.
      destruct (sub_spec (at_ ps s) (at_ ps b)) as [_ Hv]; try (apply Hp; lia).
      rewrite ltb_toZ in Hrise by (apply price_num, Hp; lia).
      apply Z.ltb_lt in Hrise.
      pose proof (rnd_pos (toZ (at_ ps s) - toZ (at_ ps b)) ltac:(lia)).
      cbn [toZ zero] in Hmax. lia. }
  split; [| split; [exact Hiff | split]].
  - destruct Hc as [(Hb & Hs & Hz) | (Hlt & Hpos & _)].
    + rewrite Hz. split; [discriminate | lia].
    + split; intros _; assumption.
  - split.
    + intros Heq Hex. apply Hiff in Hex. lia.
    + intros Hnone. destruct (Z.eq_dec (buyTime m) (sellTime m)) as [| Hneq];
        [assumption |].
      exfalso. apply Hnone, Hiff. lia.
  - unfold trade_found. rewrite Z.ltb_lt. exact Hiff.
Qed.

Lemma profitable_iff_buy_before_sell_witness :
  prices_zigzag <> [] /\ forallb price prices_zigzag = true /\
  exists m f,
    findBestTrade prices_zigzag 0 0 = Some (m, f) /\
    (ltb zero (maxProfit f) = true <-> buyTime m < sellTime m) /\
    (buyTime m < sellTime m <->
     exists b s, 0 <= b < s /\ s < len prices_zigzag /\
                 ltb (at_ prices_zigzag b) (at_ prices_zigzag s) = true) /\
    (buyTime m = sellTime m <->
     ~ exists b s, 0 <= b < s /\ s < len prices_zigzag /\
                   ltb (at_ prices_zigzag b) (at_ prices_zigzag s) = true) /\
    (trade_found m = true <->
     exists b s, 0 <= b < s /\ s < len prices_zigzag /\
                 ltb (at_ prices_zigzag b) (at_ prices_zigzag s) = true).
Proof.
  split; [discriminate |]. split; [reflexivity |].
  apply (profitable_iff_buy_before_sell prices_zigzag 0 0);
    [discriminate | reflexivity].
Defined.

(** C10.  On every non-empty sequence of prices on which the profit is
    strictly positive, [prices[buyTime]] is the least price of
    [prices[0 .. sellTime]] and [buyTime] is the first time in
    [0 .. sellTime] at which that price occurs. *)
Theorem buy_time_is_first_minimum (ps : list float) (b0 s0 : Z) :
  ps <> [] -> forallb price ps = true ->
  exists m f,
    findBestTrade ps b0 s0 = Some (m, f) /\
    (ltb zero (maxProfit f) = true ->
     0 <= buyTime m <= sellTime m /\
     (forall j, 0 <= j <= sellTime m ->
                leb (at_ ps (buyTime m)) (at_ ps j) = true) /\
     (forall j, 0 <= j < buyTime m ->
                ltb (at_ ps (buyTime m)) (at_ ps j) = true)).
Proof.
  intros Hne Hall.
  destruct (findBestTrade_full ps Hne Hall b0 s0) as ([m f] & E & Hs & Ho).
  exists m, f. split; [assumption |]. intros Hpos.
  destruct Hs as (_ & _ & _ & Hbs & Hsl & Hc).
  destruct Ho as (_ & _ & _ & _ & Hbuy). cbn [fst snd] in *.
  assert (buyTime m < sellTime m) as Hlt.
  { destruct Hc as [(_ & _ & Hz) | (H & _)]; [| assumption].
    rewrite Hz in Hpos. discriminate. }
  destruct (Hbuy Hlt) as [Hlow Hfirst].
  assert (forall j, 0 <= j < len ps -> num (at_ ps j) = true) as Hn
      by (intros j Hj; apply price_num, (price_at ps Hall); assumption).
  split; [lia |]. split; intros j Hj.
  - rewrite leb_toZ by (apply Hn; lia). apply Z.leb_le, Hlow. assumption.
  - rewrite ltb_toZ by (apply Hn; lia). apply Z.ltb_lt, Hfirst. assumption.
Qed.

Lemma buy_time_is_first_minimum_witness :
  prices_rally <> [] /\ forallb price prices_rally = true /\
  exists m f,
    findBestTrade prices_rally 0 0 = Some (m, f) /\
    (ltb zero (maxProfit f) = true ->
     0 <= buyTime m <= sellTime m /\
     (forall j, 0 <= j <= sellTime m ->
                leb (at_ prices_rally (buyTime m)) (at_ prices_rally j) = true) /\
     (forall j, 0 <= j < buyTime m ->
                ltb (at_ prices_rally (buyTime m)) (at_ prices_rally j) = true)).
Proof.
  split; [discriminate |]. split; [reflexivity |].
  apply (buy_time_is_first_minimum prices_rally 0 0); [discriminate | reflexivity].
Defined.

(** * The rest of [bot.c] *)

(** ** Which calls are defined *)

Lemma body_eq (i : Z) (m : memory) (f : frame) :
  body i (m, f) =
  match load m i with
  | Some p =>
      Some (let mp := if ltb p (minPrice f) then p else minPrice f in
            let mt := if ltb p (minPrice f) then i else minTime f in
            if ltb (maxProfit f) (sub p mp)
            then (mkMemory (prices m) mt i, mkFrame mp mt (sub p mp))
            else (m, mkFrame mp mt (maxProfit f)))
  | None => None
  end.
Proof.
  unfold body, bind. destruct (load m i) as [p |]; [| reflexivity].
  destruct f as [mp mt pr]. cbn [minPrice minTime maxProfit].
  destruct (ltb p mp); cbn [minPrice minTime maxProfit];
    destruct (ltb pr _); reflexivity.
Qed.

Lemma for_loop_in_bounds (k : nat) (i : Z) (st : memory * frame) :
  0 <= i -> i + Z.of_nat k <= len (prices (fst st)) ->
  exists st', for_loop k i st = Some st'.
Proof.
  revert i st. induction k as [| k IH]; intros i st Hi Hk.
  - exists st. reflexivity.
  - destruct (body_total i st ltac:(lia)) as [st1 E1].
    cbn [for_loop]. rewrite E1. cbn [bind]. apply IH; [lia |].
    rewrite (body_prices i st st1 E1). lia.
Qed.

Lemma for_loop_overrun (k : nat) (i : Z) (st : memory * frame) :
  0 <= i <= len (prices (fst st)) -> len (prices (fst st)) < i + Z.of_nat k ->
  for_loop k i st = None.
Proof.
  revert i st. induction k as [| k IH]; intros i st Hi Hk; [lia |].
  cbn [for_loop]. destruct (Z.eq_dec i (len (prices (fst st)))) as [Heq | Hne].
  - destruct st as [m f]. unfold body. cbn [fst] in *.
    rewrite load_out_of_range by lia. reflexivity.
  - destruct (body_total i st ltac:(lia)) as [st1 E1]. rewrite E1. cbn [bind].
    apply IH; rewrite (body_prices i st st1 E1); lia.
Qed.

(** X1.  A call is defined exactly when the array holds at least one
    element and at least [n] of them: the function reads [prices[0]] whatever
    [n] is, then [prices[1 .. n-1]]; with fewer elements it reads outside
    the array. *)
Theorem defined_iff_array_holds_n (n : Z) (m : memory) :
  (exists r, findBestBuySellTimes n m = Some r) <->
  1 <= len (prices m) /\ n <= len (prices m).
Proof.
  unfold findBestBuySellTimes. split.
  - intros [r H].
    destruct (Z_lt_le_dec (len (prices m)) 1) as [Hempty | Hone].
    + rewrite load_out_of_range in H by lia. discriminate.
    + split; [assumption |].
      destruct (Z_lt_le_dec (len (prices m)) n) as [Hover | ]; [| assumption].
      rewrite load_in_range in H by lia. cbn [bind] in H.
      rewrite for_loop_overrun in H by (cbn [fst prices]; lia). discriminate.
  - intros [Hone Hn]. rewrite load_in_range by lia. cbn [bind].
    apply for_loop_in_bounds; cbn [fst prices]; lia.
Qed.

(** ** Only the first [n] prices are read *)

Lemma load_app (ps rest : list float) (b s b' s' i : Z) :
  0 <= i < len ps ->
  load (mkMemory (ps ++ rest) b s) i = load (mkMemory ps b' s') i.
Proof.
  unfold load, len. cbn [prices]. intros Hi.
  destruct (i <? 0); [reflexivity |]. apply nth_error_app1. lia.
Qed.

Lemma body_on_array (ps rest : list float) (i : Z) (m : memory) (f : frame) :
  prices m = ps -> 0 <= i < len ps ->
  body i (on_array (ps ++ rest) (m, f))
  = option_map (on_array (ps ++ rest)) (body i (m, f)).
Proof.
  intros Hps Hi. unfold on_array at 1. cbn [fst snd]. rewrite !body_eq.
  rewrite (load_app ps rest _ _ (buyTime m) (sellTime m) i Hi).
  replace (mkMemory ps (buyTime m) (sellTime m)) with m by (destruct m; cbn in *; congruence).
  destruct (load m i) as [p |]; [| reflexivity]. cbn [option_map]. f_equal. cbv zeta.
  destruct (ltb (maxProfit f) _); reflexivity.
Qed.

Lemma for_loop_on_array (ps rest : list float) (k : nat) (i : Z) (st : memory * frame) :
  prices (fst st) = ps -> 0 <= i -> i + Z.of_nat k <= len ps ->
  for_loop k i (on_array (ps ++ rest) st)
  = option_map (on_array (ps ++ rest)) (for_loop k i st).
Proof.
  revert i st. induction k as [| k IH]; intros i st Hps Hi Hk; [reflexivity |].
  cbn [for_loop]. destruct st as [m f]. cbn [fst] in Hps.
  rewrite (body_on_array ps rest i m f Hps) by lia.
  destruct (body i (m, f)) as [st1 |] eqn:E1; [| reflexivity].
  cbn [option_map bind]. apply IH; [| lia | lia].
  rewrite (body_prices i (m, f) st1 E1). exact Hps.
Qed.

(** X2.  Only the first [n] elements are read: on an array that goes on
    after them, the call leaves in the cells and in the frame what it leaves
    when the array holds those [n] elements alone. *)
Theorem reads_first_n_only (ps rest : list float) (b0 s0 : Z) :
  ps <> [] ->
  findBestBuySellTimes (len ps) (mkMemory (ps ++ rest) b0 s0)
  = option_map (on_array (ps ++ rest)) (findBestTrade ps b0 s0).
Proof.
  intros Hne. pose proof (len_pos ps Hne) as Hlen.
  unfold findBestTrade, findBestBuySellTimes. fold (len ps).
  rewrite (load_app ps rest b0 s0 b0 s0 0) by lia.
  rewrite load_in_range by (cbn [prices]; lia). cbn [bind prices].
  apply (for_loop_on_array ps rest (Z.to_nat (len ps - 1)) 1
           (mkMemory ps 0 0, mkFrame (at_ ps 0) 0 zero)); [reflexivity | lia | lia].
Qed.

Lemma reads_first_n_only_witness :
  prices_rally <> [] /\
  findBestBuySellTimes (len prices_rally) (mkMemory (prices_rally ++ prices_quotes) 8 8)
  = option_map (on_array (prices_rally ++ prices_quotes))
               (findBestTrade prices_rally 8 8).
Proof.
  split; [discriminate |].
  apply (reads_first_n_only prices_rally prices_quotes 8 8). discriminate.
Defined.

(** ** The first time the best profit is offered *)

Lemma inv_first_sale_step (ps : list float) (i : Z) (st st' : memory * frame) :
  forallb price ps = true ->
  1 <= i < len ps -> inv_full ps i st -> inv_first_sale ps st ->
  body i st = Some st' -> inv_first_sale ps st'.
Proof.
  intros Hall Hi [Hinv Hord] Hfs Hbody.
  destruct st as [m f]. destruct Hinv as (Hps & Hmt & Hmp & Hbs & Hs & _).
  destruct Hord as (_ & _ & Hnum & Hmax & _).
  unfold inv_first_sale in *. cbn [fst snd] in *.
  destruct (body_inv i m f st' Hbody) as (p & Hload & ->).
  rewrite load_in_range in Hload by (rewrite Hps; lia).
  injection Hload as <-. rewrite Hps. cbv zeta.
  set (mp := if ltb (at_ ps i) (minPrice f) then at_ ps i else minPrice f).
  assert (price mp = true) as Pmp.
  { unfold mp. destruct (ltb (at_ ps i) (minPrice f)).
    - apply (price_at ps Hall). lia.
    - rewrite Hmp. apply (price_at ps Hall). lia. }
  destruct (sub_spec (at_ ps i) mp (price_at ps Hall i ltac:(lia)) Pmp) as [Npr _].
  destruct (ltb (maxProfit f) (sub (at_ ps i) mp)) eqn:Hup;
    cbn [fst snd sellTime maxProfit].
  - rewrite ltb_toZ in Hup by assumption. apply Z.ltb_lt in Hup.
    intros b s Hb Hlt. specialize (Hmax b s Hb Hlt). lia.
  - exact Hfs.
Qed.

(** X3.  On prices, the sell time is the first time at which the best
    profit is offered: every sale that ends before it earns strictly less
    than the profit the scan ends with. *)
Theorem sell_time_is_first_best (ps : list float) (b0 s0 : Z) :
  ps <> [] -> forallb price ps = true ->
  exists m f,
    findBestTrade ps b0 s0 = Some (m, f) /\
    forall b s, 0 <= b <= s -> s < sellTime m ->
                ltb (sub (at_ ps s) (at_ ps b)) (maxProfit f) = true.
Proof.
  intros Hne Hall.
  destruct (findBestTrade_invariant ps b0 s0
              (fun i st => inv_full ps i st /\ inv_first_sale ps st) Hne)
    as ([m f] & E & [Hinv Hord] & Hfs).
  - intros i st [[H _] _]. apply (inv_struct_prices ps i st H).
  - split; [split; [apply inv_struct_init | apply inv_order_init; assumption] |].
    intros b s Hb Hs. cbn [fst sellTime] in Hs. lia.
  - intros i st st' Hi [[Hs Ho] Hf] Hbody. split; [split |].
    + apply (inv_struct_step ps i st st' Hi Hs Hbody).
    + apply (inv_order_step ps Hall i st st' Hi Hs Ho Hbody).
    + apply (inv_first_sale_step ps i st st' Hall Hi (conj Hs Ho) Hf Hbody).
  - exists m, f. split; [assumption |]. intros b s Hb Hlt.
    destruct Hinv as (_ & _ & _ & _ & Hsl & _).
    destruct Hord as (_ & _ & Hnum & _). cbn [fst snd] in *.
    destruct (sub_spec (at_ ps s) (at_ ps b)) as [Hn _];
      try (apply (price_at ps Hall); lia).
    rewrite ltb_toZ by assumption. apply Z.ltb_lt. apply Hfs; assumption.
Qed.

Lemma sell_time_is_first_best_witness :
  prices_zigzag <> [] /\ forallb price prices_zigzag = true /\
  exists m f,
    findBestTrade prices_zigzag 0 0 = Some (m, f) /\
    forall b s, 0 <= b <= s -> s < sellTime m ->
                ltb (sub (at_ prices_zigzag s) (at_ prices_zigzag b)) (maxProfit f)
                = true.
Proof.
  split; [discriminate |]. split; [reflexivity |].
  apply (sell_time_is_first_best prices_zigzag 0 0); [discriminate | reflexivity].
Defined.

(** ** Not-a-number among the prices *)

Lemma ltb_nan_l (a : float) : ltb S754_nan a = false.
Proof. reflexivity. Qed.

Lemma sub_nan_r (a : float) : sub a S754_nan = S754_nan.
Proof. destruct a; reflexivity. Qed.

Lemma sub_not_nan (x y : float) :
  is_nan (sub x y) = false -> is_nan x = false /\ is_nan y = false.
Proof. destruct x, y; cbn; auto; discriminate. Qed.

Lemma ltb_not_nan (x y : float) : ltb x y = true -> is_nan y = false.
Proof. destruct x, y; cbn; auto; discriminate. Qed.

(** X4.  When [prices[0]] is NaN the scan records nothing, whatever the
    prices that follow: no price compares below NaN and no profit taken from
    it compares above [0], so both times stay [0]. *)
Theorem nan_first_price_blocks_scan (rest : list float) (b0 s0 : Z) :
  findBestTrade (S754_nan :: rest) b0 s0
  = Some (mkMemory (S754_nan :: rest) 0 0, mkFrame S754_nan 0 zero).
Proof.
  set (ps := S754_nan :: rest).
  destruct (findBestTrade_invariant ps b0 s0
              (fun _ st => st = (mkMemory ps 0 0, mkFrame S754_nan 0 zero)))
    as (st & E & ->); try assumption.
  - discriminate.
  - intros i st ->. reflexivity.
  - reflexivity.
  - intros i st st' Hi -> Hbody.
    destruct (body_inv i _ _ st' Hbody) as (p & _ & ->).
    cbn [minPrice minTime maxProfit]. cbv zeta.
    replace (ltb p S754_nan) with false by (symmetry; apply ltb_nan_r).
    rewrite sub_nan_r. reflexivity.
Qed.

(** X5.  On every non-empty sequence of floats, prices or not, a trade the
    scan records never buys or sells at a NaN, and its profit is not NaN. *)
Theorem trade_prices_are_numbers (ps : list float) (b0 s0 : Z) :
  ps <> [] ->
  exists m f,
    findBestTrade ps b0 s0 = Some (m, f) /\
    (buyTime m < sellTime m ->
     is_nan (at_ ps (buyTime m)) = false /\
     is_nan (at_ ps (sellTime m)) = false /\
     is_nan (maxProfit f) = false).
Proof.
  intros Hne. destruct (findBestTrade_struct ps b0 s0 Hne) as ([m f] & E & Hinv).
  exists m, f. split; [assumption |]. intros Hlt.
  destruct Hinv as (_ & _ & _ & _ & _ & Hc). cbn [fst snd] in Hc.
  destruct Hc as [(Hb & Hs & _) | (_ & Hpos & Hdiff)]; [lia |].
  pose proof (ltb_not_nan _ _ Hpos) as Hn.
  rewrite Hdiff in Hn. destruct (sub_not_nan _ _ Hn) as [Hsell Hbuy].
  rewrite Hdiff. repeat split; assumption.
Qed.

Lemma trade_prices_are_numbers_witness :
  [of_Z 4; S754_nan; of_Z 9; of_Z 2] <> [] /\
  exists m f,
    findBestTrade [of_Z 4; S754_nan; of_Z 9; of_Z 2] 0 0 = Some (m, f) /\
    (buyTime m < sellTime m ->
     is_nan (at_ [of_Z 4; S754_nan; of_Z 9; of_Z 2] (buyTime m)) = false /\
     is_nan (at_ [of_Z 4; S754_nan; of_Z 9; of_Z 2] (sellTime m)) = false /\
     is_nan (maxProfit f) = false).
Proof.
  split; [discriminate |].
  apply (trade_prices_are_numbers [of_Z 4; S754_nan; of_Z 9; of_Z 2] 0 0).
  discriminate.
Defined.

(** ** Signs of quotients and products *)

Lemma shr_1_m_nonneg (r : shr_record) : 0 <= shr_m r -> 0 <= shr_m (shr_1 r).
Proof.
  destruct r as [m rb sb]. cbn [shr_m]. intros Hm.
  rewrite shr_1_nonneg by assumption. cbn [shr_m]. apply Z.div_pos; lia.
Qed.

Lemma shr_m_nonneg (r : shr_record) (e n : Z) :
  0 <= shr_m r -> 0 <= shr_m (fst (shr r e n)).
Proof.
  intros Hm. destruct n as [| p | p]; cbn [shr fst]; try assumption.
  rewrite iter_pos_nat. apply Nat.iter_invariant; [| assumption].
  intros x. apply shr_1_m_nonneg.
Qed.

Lemma shr_fexp_m_nonneg (m e : Z) (l : location) :
  0 <= m -> 0 <= shr_m (fst (shr_fexp prec emax m e l)).
Proof.
  intros Hm. unfold shr_fexp. apply shr_m_nonneg.
  destruct l as [| []]; exact Hm.
Qed.

Lemma round_nearest_even_nonneg (m : Z) (l : location) :
  0 <= m -> 0 <= round_nearest_even m l.
Proof.
  intros Hm. destruct l as [| []]; cbn [round_nearest_even]; try lia.
  destruct (Z.even m); lia.
Qed.

(** Rounding keeps the sign it is given and never yields NaN. *)
Lemma binary_round_aux_sign (s : bool) (m e : Z) (l : location) :
  0 <= m -> has_sign s (binary_round_aux prec emax s m e l) = true.
Proof.
  intros Hm. unfold binary_round_aux.
  pose proof (shr_fexp_m_nonneg m e l Hm) as H1.
  destruct (shr_fexp prec emax m e l) as [r1 e1]. cbn [fst] in H1.
  pose proof (shr_fexp_m_nonneg
                (round_nearest_even (shr_m r1) (loc_of_shr_record r1)) e1 loc_Exact
                (round_nearest_even_nonneg _ _ H1)) as H2.
  destruct (shr_fexp prec emax _ e1 loc_Exact) as [r2 e2]. cbn [fst] in H2.
  destruct (shr_m r2) as [| q | q]; try lia.
  - cbn. apply eqb_reflx.
  - destruct (e2 <=? emax - prec); cbn; apply eqb_reflx.
Qed.

Lemma SFdiv_core_nonneg (m1 m2 : positive) (e1 e2 : Z) :
  0 <= fst (fst (SFdiv_core_binary prec emax (Zpos m1) e1 (Zpos m2) e2)).
Proof.
  unfold SFdiv_core_binary.
  set (s := e1 - e2 - _).
  set (m' := match s with Zpos _ => Z.shiftl (Zpos m1) s | Z0 => Zpos m1 | Zneg _ => 0 end).
  assert (0 <= m') as Hm'.
  { unfold m'. destruct s; try lia. apply Z.shiftl_nonneg. lia. }
  pose proof (Z_div_mod m' (Zpos m2) ltac:(lia)) as H.
  destruct (Z.div_eucl m' (Zpos m2)) as [q r]. cbn [fst]. nia.
Qed.

Lemma has_sign_nonneg (x : float) : has_sign false x = true -> leb zero x = true.
Proof. destruct x as [s | s | | s m e]; try destruct s; cbn; congruence. Qed.

Lemma has_sign_nonpos (x : float) : has_sign true x = true -> leb x zero = true.
Proof. destruct x as [s | s | | s m e]; try destruct s; cbn; congruence. Qed.

Lemma has_sign_not_nan (s : bool) (x : float) : has_sign s x = true -> is_nan x = false.
Proof. destruct x; cbn; congruence. Qed.

Lemma div_finite_sign (sx sy : bool) (mx my : positive) (ex ey : Z) :
  has_sign (xorb sx sy) (div (S754_finite sx mx ex) (S754_finite sy my ey)) = true.
Proof.
  unfold div. cbn [SFdiv].
  pose proof (SFdiv_core_nonneg mx my ex ey) as Hq.
  destruct (SFdiv_core_binary prec emax (Zpos mx) ex (Zpos my) ey) as [[mz ez] lz].
  cbn [fst] in Hq. apply binary_round_aux_sign. assumption.
Qed.

Lemma mul_finite_sign (sx sy : bool) (mx my : positive) (ex ey : Z) :
  has_sign (xorb sx sy) (mul (S754_finite sx mx ex) (S754_finite sy my ey)) = true.
Proof. unfold mul. cbn [SFmul]. apply binary_round_aux_sign. lia. Qed.

Lemma div_nonneg (a : float) (my : positive) (ey : Z) :
  leb zero a = true -> leb zero (div a (S754_finite false my ey)) = true.
Proof.
  destruct a as [s | s | | s m e]; try destruct s; try discriminate; intros _;
    try reflexivity.
  apply has_sign_nonneg. apply (div_finite_sign false false).
Qed.

Lemma div_nonpos (a : float) (my : positive) (ey : Z) :
  leb a zero = true -> leb (div a (S754_finite false my ey)) zero = true.
Proof.
  destruct a as [s | s | | s m e]; try destruct s; try discriminate; intros _;
    try reflexivity.
  apply has_sign_nonpos. apply (div_finite_sign true false).
Qed.

Lemma mul_nonneg (a : float) (my : positive) (ey : Z) :
  leb zero a = true -> leb zero (mul a (S754_finite false my ey)) = true.
Proof.
  destruct a as [s | s | | s m e]; try destruct s; try discriminate; intros _;
    try reflexivity.
  apply has_sign_nonneg. apply (mul_finite_sign false false).
Qed.

Lemma mul_nonpos (a : float) (my : positive) (ey : Z) :
  leb a zero = true -> leb (mul a (S754_finite false my ey)) zero = true.
Proof.
  destruct a as [s | s | | s m e]; try destruct s; try discriminate; intros _;
    try reflexivity.
  apply has_sign_nonpos. apply (mul_finite_sign true false).
Qed.

Lemma hundred : of_Z 100 = S754_finite false 13107200 (-17).
Proof. reflexivity. Qed.

Lemma positive_inv (y : float) :
  ltb zero y = true ->
  (exists m e, y = S754_finite false m e) \/ y = S754_infinity false.
Proof.
  destruct y as [s | s | | s m e]; try destruct s; try discriminate; intros _; eauto.
Qed.

Lemma binary_normalize_not_nan (M e : Z) :
  is_nan (binary_normalize prec emax M e false) = false.
Proof.
  destruct M as [| p | p]; cbn [binary_normalize]; [reflexivity | |];
    unfold binary_round; destruct (shl_align p e _) as [mz ez];
    eapply has_sign_not_nan; apply binary_round_aux_sign; lia.
Qed.

Lemma sub_finite_not_nan (x y : float) :
  is_finite x = true -> is_finite y = true -> is_nan (sub x y) = false.
Proof.
  destruct x as [sx | sx | | sx mx ex], y as [sy | sy | | sy my ey];
    try discriminate; intros _ _.
  - destruct sx, sy; reflexivity.
  - reflexivity.
  - reflexivity.
  - unfold sub. cbn [SFsub]. apply binary_normalize_not_nan.
Qed.

Lemma div_finite_not_nan (a : float) (sy : bool) (my : positive) (ey : Z) :
  is_nan a = false -> is_nan (div a (S754_finite sy my ey)) = false.
Proof.
  destruct a as [s | s | | s m e]; try discriminate; intros _; try reflexivity.
  eapply has_sign_not_nan. apply div_finite_sign.
Qed.

Lemma mul_finite_not_nan (a : float) (sy : bool) (my : positive) (ey : Z) :
  is_nan a = false -> is_nan (mul a (S754_finite sy my ey)) = false.
Proof.
  destruct a as [s | s | | s m e]; try discriminate; intros _; try reflexivity.
  eapply has_sign_not_nan. apply mul_finite_sign.
Qed.

(** ** The gain in per cent *)

Lemma pct_nonneg (x y : float) :
  price x = true -> price y = true -> ltb zero y = true ->
  leb y x = true -> leb zero (pct x y) = true.
Proof.
  intros Px Py Hpos Hle.
  destruct (positive_inv y Hpos) as [(my & ey & ->) | ->];
    [| apply price_finite in Py; discriminate].
  destruct (sub_spec x _ Px Py) as [Nd Vd].
  pose proof (price_num x Px) as Nx. pose proof (price_num _ Py) as Ny.
  unfold pct. rewrite hundred.
  apply mul_nonneg, div_nonneg. rewrite leb_toZ by (assumption || reflexivity).
  rewrite leb_toZ in Hle by assumption. apply Z.leb_le in Hle. apply Z.leb_le.
  rewrite Vd. change (toZ zero) with (rnd 0). apply rnd_mono. lia.
Qed.

Lemma pct_nonpos (x y : float) :
  price x = true -> price y = true -> ltb zero y = true ->
  leb x y = true -> leb (pct x y) zero = true.
Proof.
  intros Px Py Hpos Hle.
  destruct (positive_inv y Hpos) as [(my & ey & ->) | ->];
    [| apply price_finite in Py; discriminate].
  destruct (sub_spec x _ Px Py) as [Nd Vd].
  pose proof (price_num x Px) as Nx. pose proof (price_num _ Py) as Ny.
  unfold pct. rewrite hundred.
  apply mul_nonpos, div_nonpos. rewrite leb_toZ by (assumption || reflexivity).
  rewrite leb_toZ in Hle by assumption. apply Z.leb_le in Hle. apply Z.leb_le.
  rewrite Vd. change (toZ zero) with (rnd 0). apply rnd_mono. lia.
Qed.

Lemma pct_zero_base_not_finite (x y : float) :
  is_finite x = true -> is_zero y = true -> is_finite (pct x y) = false.
Proof.
  intros Fx Zy. destruct y as [sy | sy | | sy my ey]; try discriminate.
  destruct x as [sx | sx | | sx mx ex]; try discriminate.
  - destruct sx, sy; reflexivity.
  - unfold pct. rewrite hundred. destruct sx, sy; reflexivity.
Qed.

(** X6.  The change in per cent [((x - y) / y) * 100] of a price [x] over
    a strictly positive price [y] has the sign of the move: it is [>= 0]
    when [x >= y] and [<= 0] when [x <= y]. *)
Theorem pct_follows_the_move (x y : float) :
  price x = true -> price y = true -> ltb zero y = true ->
  (leb y x = true -> leb zero (pct x y) = true) /\
  (leb x y = true -> leb (pct x y) zero = true).
Proof.
  intros Px Py Hpos. split.
  - apply pct_nonneg; assumption.
  - apply pct_nonpos; assumption.
Qed.

Lemma pct_follows_the_move_witness :
  price (dyadic 405 (-2)) = true /\ price (dyadic 199 (-1)) = true /\
  ltb zero (dyadic 199 (-1)) = true /\
  (leb (dyadic 199 (-1)) (dyadic 405 (-2)) = true ->
   leb zero (pct (dyadic 405 (-2)) (dyadic 199 (-1))) = true) /\
  (leb (dyadic 405 (-2)) (dyadic 199 (-1)) = true ->
   leb (pct (dyadic 405 (-2)) (dyadic 199 (-1))) zero = true).
Proof.
  split; [reflexivity |]. split; [reflexivity |]. split; [reflexivity |].
  apply (pct_follows_the_move (dyadic 405 (-2)) (dyadic 199 (-1))); reflexivity.
Defined.

(** X7.  The division of the change in per cent is not guarded: over a
    base price that is zero the result is an infinity or NaN, never a finite
    number; and, on finite operands, it is NaN exactly for [0] over [0]. *)
Theorem pct_of_a_zero_base (x y : float) :
  is_finite x = true -> is_finite y = true ->
  (is_zero y = true -> is_finite (pct x y) = false) /\
  (is_nan (pct x y) = true <-> is_zero x = true /\ is_zero y = true).
Proof.
  intros Fx Fy. split.
  - apply pct_zero_base_not_finite. assumption.
  - split.
    + intros Hnan. destruct y as [sy | sy | | sy my ey]; try discriminate.
      * destruct x as [sx | sx | | sx mx ex]; try discriminate;
          try (split; reflexivity);
          unfold pct in Hnan; rewrite hundred in Hnan; destruct sx, sy; discriminate.
      * unfold pct in Hnan. rewrite hundred in Hnan.
        rewrite mul_finite_not_nan in Hnan; [discriminate |].
        apply div_finite_not_nan. apply sub_finite_not_nan; assumption.
    + intros [Zx Zy]. destruct x as [sx | | |], y as [sy | | |]; try discriminate.
      destruct sx, sy; reflexivity.
Qed.

Lemma pct_of_a_zero_base_witness :
  is_finite (of_Z 5) = true /\ is_finite zero = true /\
  (is_zero zero = true -> is_finite (pct (of_Z 5) zero) = false) /\
  (is_nan (pct (of_Z 5) zero) = true <-> is_zero (of_Z 5) = true /\ is_zero zero = true).
Proof.
  split; [reflexivity |]. split; [reflexivity |].
  apply (pct_of_a_zero_base (of_Z 5) zero); reflexivity.
Defined.

(** ** The table of hourly changes and the report *)

Lemma findBestBuySellTimes_row (row : list float) (b0 s0 : Z) :
  len row = HOUR ->
  findBestBuySellTimes HOUR (mkMemory row b0 s0) = findBestTrade row b0 s0.
Proof. intros <-. reflexivity. Qed.

Lemma row_not_empty (row : list float) : len row = HOUR -> row <> [].
Proof. intros H ->. discriminate. Qed.

Lemma positive_not_nonpos (p : float) : ltb zero p = true -> leb p zero = false.
Proof. destruct p as [s | s | | s m e]; try destruct s; cbn; congruence. Qed.

Lemma rise_gives_trade (ps : list float) (m : memory) (f : frame) :
  forallb price ps = true -> inv_full ps (len ps) (m, f) ->
  (exists b s, 0 <= b < s /\ s < len ps /\ ltb (at_ ps b) (at_ ps s) = true) ->
  buyTime m < sellTime m.
Proof.
  intros Hall [Hs Ho] [b [s (Hb & Hlt & Hrise)]].
  destruct Hs as (_ & _ & _ & _ & _ & Hc).
  destruct Ho as (_ & _ & _ & Hmax & _). cbn [fst snd] in *.
  destruct Hc as [(_ & _ & Hz) | (H & _)]; [| assumption].
  specialize (Hmax b s ltac:(lia) Hlt). rewrite Hz in Hmax.
  destruct (sub_spec (at_ ps s) (at_ ps b)) as [_ Hv];
    try (apply (price_at ps Hall); lia).
  rewrite ltb_toZ in Hrise by (apply price_num, (price_at ps Hall); lia).
  apply Z.ltb_lt in Hrise.
  pose proof (rnd_pos (toZ (at_ ps s) - toZ (at_ ps b)) ltac:(lia)).
  cbn [toZ zero] in Hmax. lia.
Qed.

Lemma trade_is_rise (ps : list float) (m : memory) (f : frame) :
  forallb price ps = true -> inv_full ps (len ps) (m, f) ->
  buyTime m < sellTime m ->
  ltb (at_ ps (buyTime m)) (at_ ps (sellTime m)) = true.
Proof.
  intros Hall [Hs Ho] Hlt.
  destruct Hs as (_ & _ & _ & Hbs & Hsl & Hc). cbn [fst snd] in *.
  destruct Hc as [(Hb & Hs & _) | (_ & Hpos & Hdiff)]; [lia |].
  assert (forall j, 0 <= j < len ps -> price (at_ ps j) = true) as Hp
      by (intros j Hj; apply (price_at ps Hall); assumption).
  rewrite ltb_toZ by (apply price_num, Hp; lia). apply Z.ltb_lt.
  destruct (sub_spec (at_ ps (sellTime m)) (at_ ps (buyTime m))) as [Hn Hv];
    try (apply Hp; lia).
  rewrite Hdiff, ltb_toZ in Hpos by (assumption || reflexivity).
  apply Z.ltb_lt in Hpos. rewrite Hv in Hpos. cbn [toZ zero] in Hpos.
  destruct (Z_lt_le_dec (toZ (at_ ps (buyTime m))) (toZ (at_ ps (sellTime m))))
    as [| Hle]; [assumption |].
  pose proof (rnd_mono (toZ (at_ ps (sellTime m)) - toZ (at_ ps (buyTime m))) 0
                ltac:(lia)) as Hr.
  rewrite rnd_0 in Hr. lia.
Qed.

(** X8.  On a row of [HOUR] prices, if the table of hourly changes shows a
    strictly positive entry at hour [k] over a strictly positive price, the
    price rose from hour [k - 1] to hour [k], and the scan of that row finds
    a trade: [main] prints it. *)
Theorem rising_hour_is_reported (row : list float) (k b0 s0 : Z) :
  len row = HOUR -> forallb price row = true ->
  1 <= k < HOUR -> ltb zero (at_ row (k - 1)) = true ->
  ltb zero (exch row k) = true ->
  ltb (at_ row (k - 1)) (at_ row k) = true /\
  exists m f,
    findBestBuySellTimes HOUR (mkMemory row b0 s0) = Some (m, f) /\
    trade_found m = true.
Proof.
  intros Hlen Hall Hk Hbase Hex.
  assert (price (at_ row k) = true) as Pk by (apply (price_at row Hall); lia).
  assert (price (at_ row (k - 1)) = true) as Pk1 by (apply (price_at row Hall); lia).
  assert (ltb (at_ row (k - 1)) (at_ row k) = true) as Hrise.
  { unfold exch in Hex. destruct (Z.eqb_spec k 0) as [| _]; [lia |].
    rewrite ltb_toZ by (apply price_num; assumption). apply Z.ltb_lt.
    destruct (Z_lt_le_dec (toZ (at_ row (k - 1))) (toZ (at_ row k))) as [| Hle];
      [assumption |].
    assert (leb (at_ row k) (at_ row (k - 1)) = true) as Hfall.
    { rewrite leb_toZ by (apply price_num; assumption). apply Z.leb_le. assumption. }
    pose proof (pct_nonpos _ _ Pk Pk1 Hbase Hfall) as Hnp.
    rewrite (positive_not_nonpos _ Hex) in Hnp. discriminate. }
  split; [exact Hrise |].
  rewrite findBestBuySellTimes_row by assumption.
  destruct (findBestTrade_full row (row_not_empty row Hlen) Hall b0 s0)
    as ([m f] & E & Hfull).
  exists m, f. split; [assumption |].
  unfold trade_found. apply Z.ltb_lt.
  apply (rise_gives_trade row m f Hall Hfull).
  exists (k - 1), k. repeat split; try lia. assumption.
Qed.

Lemma rising_hour_is_reported_witness :
  len (sample_row 0) = HOUR /\ forallb price (sample_row 0) = true /\
  1 <= 1 < HOUR /\ ltb zero (at_ (sample_row 0) (1 - 1)) = true /\
  ltb zero (exch (sample_row 0) 1) = true /\
  ltb (at_ (sample_row 0) (1 - 1)) (at_ (sample_row 0) 1) = true /\
  exists m f,
    findBestBuySellTimes HOUR (mkMemory (sample_row 0) 0 0) = Some (m, f) /\
    trade_found m = true.
Proof.
  split; [reflexivity |]. split; [reflexivity |].
  split; [unfold HOUR; lia |]. split; [reflexivity |]. split; [reflexivity |].
  apply (rising_hour_is_reported (sample_row 0) 1 0 0);
    try reflexivity; unfold HOUR; lia.
Defined.

Lemma select_in_range (price : list (list float)) (slct : Z) :
  1 <= slct <= len_rows price ->
  exists row, select price slct = Some row /\ In row price.
Proof.
  unfold select, len_rows. intros Hs.
  destruct (Z.ltb_spec (slct - 1) 0) as [| _]; [lia |].
  destruct (nth_error price (Z.to_nat (slct - 1))) as [row |] eqn:E.
  - exists row. split; [reflexivity |]. apply (nth_error_In _ _ E).
  - apply nth_error_None in E. lia.
Qed.

Lemma select_out_of_range (price : list (list float)) (slct : Z) :
  slct < 1 \/ len_rows price < slct -> select price slct = None.
Proof.
  unfold select, len_rows. intros Hs.
  destruct (Z.ltb_spec (slct - 1) 0) as [| Hge]; [reflexivity |].
  apply nth_error_None. lia.
Qed.

(** X9.  Lines 78-87 of [main], on a table of [TOTAL] rows of [HOUR]
    prices.  The selection is not checked: the analysis is defined exactly
    for [1 <= slct <= TOTAL].  When it prints that no trade was found, no
    later price of the row exceeds an earlier one.  When it prints a trade,
    the two times are inside the row and in order, the prices printed are
    those of the row at these times, the buy price is strictly below the
    sell price, no pair of times of the row earns more, and the gain printed
    is [>= 0] when the buy price is positive and not finite when it is
    zero. *)
Theorem analyse_reports_best_trade (price : list (list float)) (slct b0 s0 : Z) :
  table_ok price ->
  ((exists rep, analyse price slct b0 s0 = Some rep) <-> 1 <= slct <= TOTAL) /\
  (forall rep,
      analyse price slct b0 s0 = Some rep ->
      exists row,
        select price slct = Some row /\
        match rep with
        | NoTrade => never_rises row
        | Trade b s pb psell g =>
            0 <= b /\ b < s /\ s < HOUR /\
            pb = at_ row b /\ psell = at_ row s /\ ltb pb psell = true /\
            g = pct psell pb /\
            (forall b' s', 0 <= b' <= s' -> s' < HOUR ->
                           ltb (sub psell pb) (sub (at_ row s') (at_ row b')) = false) /\
            (ltb zero pb = true -> leb zero g = true) /\
            (is_zero pb = true -> is_finite g = false)
        end).
Proof.
  intros [Hrows Hrow].
  assert (forall row, select price slct = Some row ->
            exists m f,
              findBestBuySellTimes HOUR (mkMemory row b0 s0) = Some (m, f) /\
              len row = HOUR /\ forallb F32.price row = true /\
              inv_full row (len row) (m, f)) as Hrun.
  { intros row Hsel.
    assert (In row price) as Hin.
    { unfold select in Hsel. destruct (slct - 1 <? 0); [discriminate |].
      apply (nth_error_In _ _ Hsel). }
    destruct (Hrow row Hin) as [Hlen Hall].
    rewrite findBestBuySellTimes_row by assumption.
    destruct (findBestTrade_full row (row_not_empty row Hlen) Hall b0 s0)
      as ([m f] & E & Hfull).
    exists m, f. split; [assumption |]. split; [assumption |]. split; assumption. }
  split.
  - split.
    + intros [rep H]. unfold analyse in H.
      destruct (Z_le_gt_dec 1 slct) as [H1 |];
        [destruct (Z_le_gt_dec slct TOTAL) as [H2 |]; [lia |] |];
        rewrite select_out_of_range in H by lia; discriminate.
    + intros Hs. destruct (select_in_range price slct ltac:(lia)) as (row & Hsel & _).
      destruct (Hrun row Hsel) as (m & f & E & Hlen & Hall & Hs' & _).
      unfold analyse. rewrite Hsel. cbn [bind]. rewrite E. cbn [bind fst].
      destruct Hs' as (Hps & _ & _ & Hbs & Hsl & _). cbn [fst snd] in *.
      destruct (trade_found m); [| eauto].
      rewrite !load_in_range by (rewrite Hps; lia). cbn [bind]. eauto.
  - intros rep H. unfold analyse in H.
    destruct (select price slct) as [row |] eqn:Hsel; [| discriminate].
    cbn [bind] in H. exists row. split; [reflexivity |].
    destruct (Hrun row eq_refl) as (m & f & E & Hlen & Hall & Hfull).
    rewrite E in H. cbn [bind fst] in H.
    pose proof Hfull as [Hs' Ho].
    destruct Hs' as (Hps & _ & _ & Hbs & Hsl & Hc).
    destruct Ho as (_ & _ & Hnum & Hmax & _). cbn [fst snd] in *.
    unfold trade_found in H. destruct (Z.ltb_spec (buyTime m) (sellTime m)) as [Hlt | Hge].
    + rewrite !load_in_range in H by (rewrite Hps; lia). cbn [bind] in H.
      injection H as <-. rewrite Hps.
      assert (forall j, 0 <= j < len row -> F32.price (at_ row j) = true) as Hp
          by (intros j Hj; apply (price_at row Hall); assumption).
      pose proof (trade_is_rise row m f Hall Hfull Hlt) as Hrise.
      repeat split; try lia; try assumption.
      * intros b' s' Hb' Hs'.
        destruct Hc as [(Hb & Hs & _) | (_ & _ & Hdiff)]; [lia |].
        rewrite <- Hdiff.
        destruct (sub_spec (at_ row s') (at_ row b')) as [Hn _];
          try (apply Hp; lia).
        rewrite ltb_toZ by assumption. apply Z.ltb_ge. apply Hmax; lia.
      * intros Hpos. apply pct_nonneg; try (apply Hp; lia); try assumption.
        rewrite leb_toZ by (apply price_num, Hp; lia).
        rewrite ltb_toZ in Hrise by (apply price_num, Hp; lia).
        apply Z.ltb_lt in Hrise. apply Z.leb_le. lia.
      * intros Hz. apply pct_zero_base_not_finite; [| assumption].
        apply price_finite, Hp. lia.
    + injection H as <-. intros i j Hij Hj.
      destruct (ltb (at_ row i) (at_ row j)) eqn:Hr; [| reflexivity].
      exfalso. assert (buyTime m < sellTime m); [| lia].
      apply (rise_gives_trade row m f Hall Hfull).
      exists i, j. repeat split; try lia. assumption.
Qed.

Lemma sample_table_ok : table_ok sample_table.
Proof.
  split; [reflexivity |]. intros row Hin.
  unfold sample_table in Hin. cbn [map seq] in Hin.
  repeat (destruct Hin as [<- | Hin]; [split; reflexivity |]).
  destruct Hin.
Defined.

Lemma analyse_reports_best_trade_witness :
  table_ok sample_table /\
  ((exists rep, analyse sample_table 3 0 0 = Some rep) <-> 1 <= 3 <= TOTAL) /\
  (forall rep,
      analyse sample_table 3 0 0 = Some rep ->
      exists row,
        select sample_table 3 = Some row /\
        match rep with
        | NoTrade => never_rises row
        | Trade b s pb psell g =>
            0 <= b /\ b < s /\ s < HOUR /\
            pb = at_ row b /\ psell = at_ row s /\ ltb pb psell = true /\
            g = pct psell pb /\
            (forall b' s', 0 <= b' <= s' -> s' < HOUR ->
                           ltb (sub psell pb) (sub (at_ row s') (at_ row b')) = false) /\
            (ltb zero pb = true -> leb zero g = true) /\
            (is_zero pb = true -> is_finite g = false)
        end).
Proof.
  split; [exact sample_table_ok |].
  apply (analyse_reports_best_trade sample_table 3 0 0). exact sample_table_ok.
Defined.

Example sample_report :
  analyse sample_table 3 0 0
  = Some (Trade 0 4 (dyadic 400 (-2)) (dyadic 406 (-2)) (dyadic 3 (-1))).
Proof. reflexivity. Qed.
